(** * Peloton: the cached task runtime, the placement engine's partition,
      the pending queue of a leaf resource pool, and the code around them

    A shallow embedding of the parts of the repository that the specification's
    testable properties talk about, with the properties proved (or refuted at a
    concrete input) against it, followed by the other code of the sources
    and the properties it shows.

    - [Cached]       : jobmgr/cached/task.go (validateMesosTaskID,
                       validateState, CreateRuntime, PatchRuntime,
                       ReplaceRuntime, updateRevision, GetRunTime,
                       CurrentState) and the state tables of
                       jobmgr/cached/types.go.
    - [Placement]    : the engine's filterAssignments, whose implementation
                       file is not part of the sources; embedded from section
                       4.5 of the specification and placement/engine_test.go.
    - [ResPool]      : a leaf pool's pending queue, whose implementation file
                       is not part of the sources; embedded from sections 4.1,
                       4.4 and 5 of the specification and
                       respool/restree_test.go.
    - [StateMachine] : common/statemachine/builder.go.
    - [ResMgrServer] : resmgr/server.go, the leadership callbacks.
    - [Offers]       : placement/offers/service.go.
    - [Cleaner]      : hostmgr/reservation/cleaner/cleaner.go.
    - [TaskConfig]   : Merge of package taskconfig. *)

From Stdlib Require Import ZArith List String Ascii Bool Lia QArith Permutation.
From stdpp Require Import base gmap strings list sorting.
Close Scope Q_scope.
Open Scope Z_scope.

(* ===================================================================== *)
(** * Shared vocabulary                                                   *)
(* ===================================================================== *)

(** pbtask.TaskState.  The generated protobuf enum is not among the sources;
    the constructors are the states named by the specification (section 4.3)
    together with UNKNOWN, which jobmgr/cached/types.go mentions. *)
Inductive TaskState :=
  | UNKNOWN | INITIALIZED | PENDING | READY | PLACING | PLACED | LAUNCHING
  | LAUNCHED | STARTING | RUNNING | SUCCEEDED | FAILED | LOST | PREEMPTING
  | KILLING | KILLED | RESERVED.

#[global] Instance TaskState_eq_dec : EqDecision TaskState.
Proof. solve_decision. Defined.

Definition TaskState_eqb (a b : TaskState) : bool := bool_decide (a = b).

Definition wrap64 (z : Z) : Z := z mod 2 ^ 64.

(** Decimal reading of a string, as strconv.ParseUint(s, 10, 32) does it:
    digits only, at least one, and a value that fits 32 bits. *)
Definition digit_of (c : ascii) : option Z :=
  let n := Z.of_nat (nat_of_ascii c) in
  if (48 <=? n) && (n <=? 57) then Some (n - 48) else None.

Fixpoint parse_digits (acc : Z) (s : string) : option Z :=
  match s with
  | EmptyString => Some acc
  | String c rest =>
      match digit_of c with
      | Some d => parse_digits (10 * acc + d) rest
      | None => None
      end
  end.

Definition ParseUint32 (s : string) : option Z :=
  match s with
  | EmptyString => None
  | _ => match parse_digits 0 s with
         | Some n => if n <? 2 ^ 32 then Some n else None
         | None => None
         end
  end.

(** The text after the last '-' (the whole string when there is none):
    the last element of strings.Split(s, "-"). *)
Fixpoint lastSegment_aux (cur : string) (s : string) : string :=
  match s with
  | EmptyString => cur
  | String c rest =>
      if Ascii.eqb c "-"%char then lastSegment_aux EmptyString rest
      else lastSegment_aux (cur ++ String c EmptyString)%string rest
  end.

Definition lastSegment (s : string) : string := lastSegment_aux EmptyString s.

(* ===================================================================== *)
(** * jobmgr/cached: the cached task runtime                              *)
(* ===================================================================== *)

Module Cached.

(** ** Data *)

(** peloton.ChangeLog; the three counters are uint64. *)
Record ChangeLog := mkChangeLog {
  Version : Z;
  CreatedAt : Z;
  UpdatedAt : Z
}.

(** pbtask.RuntimeInfo, restricted to the fields the cache code and its
    callers read or patch.  [MesosTaskId], [PrevMesosTaskId] and
    [DesiredMesosTaskId] are pointers to a mesos.TaskID, which is a string;
    [None] is the nil pointer.  [Revision] is a pointer to a ChangeLog: in
    memory it is a location of the heap of ChangeLog objects (type parameter
    [R := loc]), in a row of the task store it is the value itself
    ([R := ChangeLog]). *)
Record RuntimeInfoOf (R : Type) := mkRuntime {
  State : TaskState;
  GoalState : TaskState;
  MesosTaskId : option string;
  PrevMesosTaskId : option string;
  DesiredMesosTaskId : option string;
  ConfigVersion : Z;
  FailureCount : Z;
  Message : string;
  Reason : string;
  Revision : option R
}.
Arguments mkRuntime {R}.
Arguments State {R}.
Arguments GoalState {R}.
Arguments MesosTaskId {R}.
Arguments PrevMesosTaskId {R}.
Arguments DesiredMesosTaskId {R}.
Arguments ConfigVersion {R}.
Arguments FailureCount {R}.
Arguments Message {R}.
Arguments Reason {R}.
Arguments Revision {R}.

Abbreviation loc := nat.
Definition RuntimeInfo := RuntimeInfoOf loc.
Definition RuntimeRow := RuntimeInfoOf ChangeLog.

Definition withRevision {R S : Type} (r : RuntimeInfoOf R) (rev : option S)
  : RuntimeInfoOf S :=
  mkRuntime (State r) (GoalState r) (MesosTaskId r) (PrevMesosTaskId r)
            (DesiredMesosTaskId r) (ConfigVersion r) (FailureCount r)
            (Message r) (Reason r) rev.

(** The heap of ChangeLog objects that Revision pointers refer to. *)
Abbreviation Heap := (list ChangeLog).

Definition alloc (h : Heap) (c : ChangeLog) : loc * Heap :=
  (length h, h ++ [c]).

Definition deref (h : Heap) (p : option loc) : option ChangeLog :=
  match p with
  | Some l => h !! l
  | None => None
  end.

(** Nil-safe getters of the generated code: runtime.GetRevision().GetVersion()
    is 0 when the revision pointer is nil. *)
Definition GetVersion (h : Heap) (r : RuntimeInfo) : Z :=
  match deref h (Revision r) with
  | Some c => Version c
  | None => 0
  end.

Definition GetValue (id : option string) : string := default EmptyString id.

(** What the store writes for an in-memory runtime, and what it hands back. *)
Definition freeze (h : Heap) (r : RuntimeInfo) : RuntimeRow :=
  withRevision r (deref h (Revision r)).

Definition thaw (h : Heap) (row : RuntimeRow) : RuntimeInfo * Heap :=
  match Revision row with
  | Some c => let '(l, h') := alloc h c in (withRevision row (Some l), h')
  | None => (withRevision row None, h)
  end.

(** yarpc errors and store errors, as far as the cache distinguishes them. *)
Inductive Err :=
  | InvalidArgument (msg : string)
  | StoreError (msg : string).

(** ** jobmgr/cached/types.go: ownership tables *)

Definition resMgrOwnedTaskStates : list TaskState :=
  [PENDING; READY; PLACING; PLACED; LAUNCHING; PREEMPTING].

Definition mesosOwnedTaskStates : list TaskState :=
  [STARTING; RUNNING; SUCCEEDED; FAILED; LOST; KILLED].

Definition IsResMgrOwnedState (state : TaskState) : bool :=
  bool_decide (state ∈ resMgrOwnedTaskStates).

Definition IsMesosOwnedState (state : TaskState) : bool :=
  bool_decide (state ∈ mesosOwnedTaskStates).

(** len(uuid.New()): the canonical text form of a UUID has 36 characters. *)
Definition uuidLength : nat := 36.

Definition isLegacyLength (id : string) : bool :=
  Nat.ltb (2 * uuidLength) (String.length id).

(** ** jobmgr/common/types.go: RuntimeDiff

    "key is the field name to be updated, value is the value to be updated
    to".  The values are the Go values of the corresponding field types. *)
Inductive FieldValue :=
  | VState (s : TaskState)
  | VTaskID (id : option string)
  | VUint (n : Z)
  | VString (s : string)
  | VChangeLog (c : option loc).

Abbreviation RuntimeDiff := (gmap string FieldValue).

Definition StateField : string := "State".
Definition GoalStateField : string := "GoalState".
Definition MesosTaskIDField : string := "MesosTaskId".
Definition PrevMesosTaskIDField : string := "PrevMesosTaskId".
Definition DesiredMesosTaskIDField : string := "DesiredMesosTaskId".
Definition ConfigVersionField : string := "ConfigVersion".
Definition FailureCountField : string := "FailureCount".
Definition MessageField : string := "Message".
Definition ReasonField : string := "Reason".
Definition RevisionField : string := "Revision".

(** Modelled from the spec: the helper patch() of the cache is not among the
    sources.  It applies a diff to a runtime in place, field by field, as
    the comment on RuntimeDiff describes; a key that names no field, or a
    value of the wrong type, is an error. *)
Definition patchField (r : RuntimeInfo) (kv : string * FieldValue)
  : Err + RuntimeInfo :=
  let '(k, v) := kv in
  match v with
  | VState s =>
      if String.eqb k StateField then
        inr (mkRuntime s (GoalState r) (MesosTaskId r) (PrevMesosTaskId r)
               (DesiredMesosTaskId r) (ConfigVersion r) (FailureCount r)
               (Message r) (Reason r) (Revision r))
      else if String.eqb k GoalStateField then
        inr (mkRuntime (State r) s (MesosTaskId r) (PrevMesosTaskId r)
               (DesiredMesosTaskId r) (ConfigVersion r) (FailureCount r)
               (Message r) (Reason r) (Revision r))
      else inl (InvalidArgument k)
  | VTaskID id =>
      if String.eqb k MesosTaskIDField then
        inr (mkRuntime (State r) (GoalState r) id (PrevMesosTaskId r)
               (DesiredMesosTaskId r) (ConfigVersion r) (FailureCount r)
               (Message r) (Reason r) (Revision r))
      else if String.eqb k PrevMesosTaskIDField then
        inr (mkRuntime (State r) (GoalState r) (MesosTaskId r) id
               (DesiredMesosTaskId r) (ConfigVersion r) (FailureCount r)
               (Message r) (Reason r) (Revision r))
      else if String.eqb k DesiredMesosTaskIDField then
        inr (mkRuntime (State r) (GoalState r) (MesosTaskId r)
               (PrevMesosTaskId r) id (ConfigVersion r) (FailureCount r)
               (Message r) (Reason r) (Revision r))
      else inl (InvalidArgument k)
  | VUint n =>
      if String.eqb k ConfigVersionField then
        inr (mkRuntime (State r) (GoalState r) (MesosTaskId r)
               (PrevMesosTaskId r) (DesiredMesosTaskId r) n (FailureCount r)
               (Message r) (Reason r) (Revision r))
      else if String.eqb k FailureCountField then
        inr (mkRuntime (State r) (GoalState r) (MesosTaskId r)
               (PrevMesosTaskId r) (DesiredMesosTaskId r) (ConfigVersion r) n
               (Message r) (Reason r) (Revision r))
      else inl (InvalidArgument k)
  | VString s =>
      if String.eqb k MessageField then
        inr (mkRuntime (State r) (GoalState r) (MesosTaskId r)
               (PrevMesosTaskId r) (DesiredMesosTaskId r) (ConfigVersion r)
               (FailureCount r) s (Reason r) (Revision r))
      else if String.eqb k ReasonField then
        inr (mkRuntime (State r) (GoalState r) (MesosTaskId r)
               (PrevMesosTaskId r) (DesiredMesosTaskId r) (ConfigVersion r)
               (FailureCount r) (Message r) s (Revision r))
      else inl (InvalidArgument k)
  | VChangeLog c =>
      if String.eqb k RevisionField then
        inr (withRevision r c)
      else inl (InvalidArgument k)
  end.

Fixpoint patchList (r : RuntimeInfo) (kvs : list (string * FieldValue))
  : Err + RuntimeInfo :=
  match kvs with
  | [] => inr r
  | kv :: rest =>
      match patchField r kv with
      | inl e => inl e
      | inr r' => patchList r' rest
      end
  end.

Definition patch (r : RuntimeInfo) (diff : RuntimeDiff) : Err + RuntimeInfo :=
  patchList r (map_to_list diff).

(** ** The task object and its collaborators *)

Inductive JobType := BATCH | SERVICE.

(** The cached task: [runtime] is the struct t.runtime points to ([None] for
    nil), [heap] the ChangeLog objects that Revision pointers refer to,
    [taskStore] the row the task store holds for this task. *)
Record task := mkTask {
  runtime : option RuntimeInfo;
  heap : Heap;
  lastRuntimeUpdateTime : Z;
  taskStore : option RuntimeRow
}.

(** What the calls that leave the task object answer during one operation:
    the clock, the job factory (no cached job, or the outcome of GetConfig on
    it) and whether the task store fails on a read or on a write. *)
Record Env := mkEnv {
  now : Z;
  cachedJob : option (Err + JobType);
  getTaskRuntimeErr : option Err;
  updateTaskRuntimeErr : option Err
}.

Definition setRuntime (t : task) (r : option RuntimeInfo) (h : Heap) : task :=
  mkTask r h (lastRuntimeUpdateTime t) (taskStore t).

(** taskStore.GetTaskRuntime: a fresh copy of the stored row. *)
Definition GetTaskRuntime (env : Env) (t : task) : Err + (RuntimeInfo * Heap) :=
  match getTaskRuntimeErr env with
  | Some e => inl e
  | None =>
      match taskStore t with
      | Some row => inr (thaw (heap t) row)
      | None => inl (StoreError "task runtime not found")
      end
  end.

(** The runtime the operation works on: the cached one, or the one reloaded
    from the store when the cache is empty ("reload cache if there is none"). *)
Definition loadRuntime (env : Env) (t : task) : Err + (RuntimeInfo * Heap) :=
  match runtime t with
  | Some r => inr (r, heap t)
  | None => GetTaskRuntime env t
  end.

(** updateRevision: works on t.runtime, the struct the cache points to. *)
Definition bumpRevision (now : Z) (c : ChangeLog) : ChangeLog :=
  mkChangeLog (wrap64 (Version c + 1)) (CreatedAt c) (wrap64 now).

Definition updateRevision (now : Z) (cur : RuntimeInfo) (h : Heap)
  : RuntimeInfo * Heap :=
  let '(cur1, h1) :=
    match Revision cur with
    | None =>
        let '(l, h') := alloc h (mkChangeLog 0 (wrap64 now) 0) in
        (withRevision cur (Some l), h')
    | Some _ => (cur, h)
    end in
  match Revision cur1 with
  | Some l => (cur1, alter (bumpRevision now) l h1)
  | None => (cur1, h1)
  end.

Section WithUtil.

(** util.ParseRunID and util.IsPelotonStateTerminal are not among the
    sources; the cache code is embedded over any two such functions.
    [ParseRunID id = None] stands for the error return. *)
Variable ParseRunID : string -> option Z.
Variable IsPelotonStateTerminal : TaskState -> bool.

Definition validateMesosTaskID (mesosTaskID prevMesosTaskID : string) : bool :=
  if isLegacyLength mesosTaskID && isLegacyLength prevMesosTaskID then true
  else
    match ParseRunID mesosTaskID with
    | None => false
    | Some newRunID =>
        match ParseRunID prevMesosTaskID with
        | None => isLegacyLength prevMesosTaskID || false
        | Some currentRunID => currentRunID <=? newRunID
        end
    end.

(** The part of validateState after the two mesos task id checks. *)
Definition validateTransition (current new : TaskState) : bool :=
  if TaskState_eqb new current then true
  else if IsPelotonStateTerminal current then false
  else if IsMesosOwnedState new
          && (IsMesosOwnedState current || IsResMgrOwnedState current) then true
  else if IsMesosOwnedState new
          && (TaskState_eqb current INITIALIZED || TaskState_eqb current LAUNCHED)
       then true
  else if IsMesosOwnedState new
          && (IsPelotonStateTerminal new && TaskState_eqb current KILLING) then true
  else if IsResMgrOwnedState new && IsResMgrOwnedState current then true
  else if IsResMgrOwnedState new && TaskState_eqb current INITIALIZED then true
  else if TaskState_eqb new LAUNCHED && IsResMgrOwnedState current then true
  else if TaskState_eqb new LAUNCHED && TaskState_eqb current INITIALIZED then true
  else if TaskState_eqb new KILLING then true
  else false.

Definition mesosTaskIdChanged (currentRuntime newRuntime : RuntimeInfo) : bool :=
  match MesosTaskId newRuntime with
  | None => false
  | Some _ =>
      negb (String.eqb (GetValue (MesosTaskId currentRuntime))
                       (GetValue (MesosTaskId newRuntime)))
  end.

Definition desiredRunIdDecreases (currentRuntime newRuntime : RuntimeInfo) : bool :=
  match DesiredMesosTaskId newRuntime with
  | None => false
  | Some _ =>
      negb (validateMesosTaskID (GetValue (DesiredMesosTaskId newRuntime))
                                (GetValue (DesiredMesosTaskId currentRuntime)))
  end.

Definition validateState (currentRuntime : RuntimeInfo)
    (newRuntime : option RuntimeInfo) : bool :=
  match newRuntime with
  | None => false
  | Some newRuntime =>
      if mesosTaskIdChanged currentRuntime newRuntime then
        if negb (validateMesosTaskID (GetValue (MesosTaskId newRuntime))
                                     (GetValue (MesosTaskId currentRuntime)))
        then false
        else if TaskState_eqb (State newRuntime) INITIALIZED then true
        else false
      else if desiredRunIdDecreases currentRuntime newRuntime then false
      else validateTransition (State currentRuntime) (State newRuntime)
  end.

Definition PatchRuntime (env : Env) (diff : option RuntimeDiff) (t : task)
  : option Err * task :=
  match diff with
  | None => (Some (InvalidArgument "unexpected nil diff"), t)
  | Some d =>
      match d !! RevisionField with
      | Some _ => (Some (InvalidArgument "unexpected Revision field in diff"), t)
      | None =>
          match cachedJob env with
          | Some (inl err) => (Some err, t)
          | _ =>
              match loadRuntime env t with
              | inl err => (Some err, t)
              | inr (cur, h) =>
                  let t1 := setRuntime t (Some cur) h in
                  match patch cur d with
                  | inl err => (Some err, t1)
                  | inr newRuntime =>
                      if negb (validateState cur (Some newRuntime)) then (None, t1)
                      else
                        let '(_, h2) := updateRevision (now env) cur h in
                        match updateTaskRuntimeErr env with
                        | Some err => (Some err, setRuntime t None h2)
                        | None =>
                            (None, mkTask (Some newRuntime) h2 (now env)
                                          (Some (freeze h2 newRuntime)))
                        end
                  end
              end
          end
      end
  end.

End WithUtil.

Definition ReplaceRuntime (rt : option RuntimeInfo) (forceReplace : bool)
    (t : task) : option Err * task :=
  let invalid :=
    (Some (InvalidArgument
       "ReplaceRuntime expects a non-nil runtime with non-nil Revision"), t) in
  match rt with
  | None => invalid
  | Some r =>
      match Revision r with
      | None => invalid
      | Some _ =>
          if forceReplace
             || match runtime t with
                | None => true
                | Some cur => GetVersion (heap t) cur <? GetVersion (heap t) r
                end
          then (None, setRuntime t (Some r) (heap t))
          else (None, t)
      end
  end.

Definition GetRunTime (env : Env) (t : task) : (Err + RuntimeInfo) * task :=
  match loadRuntime env t with
  | inl err => (inl err, t)
  | inr (r, h) => (inr r, setRuntime t (Some r) h)
  end.

(** Modelled from the spec: util.ParseRunID is not among the sources.  A
    mesos task id is written job-instance-run (the tests build one with the
    format "%s-%d-%d"); the run-id is the decimal number after the last
    dash, and an id that does not end in one is an error. *)
Definition ParseRunID_model (mesosTaskID : string) : option Z :=
  ParseUint32 (lastSegment mesosTaskID).

(** Modelled from the spec: util.IsPelotonStateTerminal is not among the
    sources.  Section 4.3: "Terminal states: SUCCEEDED, FAILED (after
    retries), KILLED." *)
Definition IsPelotonStateTerminal_model (state : TaskState) : bool :=
  match state with
  | SUCCEEDED | FAILED | KILLED => true
  | _ => false
  end.

(** Modelled from the spec: the valid transitions that section 4.3 lists,
    read generously (a failure or loss may follow any of PLACED, LAUNCHING,
    LAUNCHED and STARTING; STARTING leads to RUNNING; a timeout leads any
    resource-manager state back to PENDING). *)
Definition declaredTransition (from to : TaskState) : bool :=
  match from, to with
  | PENDING, READY
  | READY, PLACING
  | PLACING, READY | PLACING, PLACED
  | PLACED, LAUNCHING
  | LAUNCHING, LAUNCHED
  | LAUNCHED, STARTING | LAUNCHED, RUNNING
  | STARTING, RUNNING
  | (PLACED | LAUNCHING | LAUNCHED | STARTING), (FAILED | LOST)
  | RUNNING, (SUCCEEDED | FAILED | LOST | KILLING | PREEMPTING)
  | PREEMPTING, (KILLING | KILLED)
  | KILLING, (KILLED | LOST)
  | (FAILED | LOST), PENDING
  | (READY | PLACING | PLACED | LAUNCHING), PENDING => true
  | _, _ => false
  end.

(** The error GetConfig answered, if the job is cached and it failed. *)
Definition jobConfigError (env : Env) : option Err :=
  match cachedJob env with
  | Some (inl err) => Some err
  | _ => None
  end.

(** ** Facts about patch *)

Lemma patchField_Revision r k v r' :
  patchField r (k, v) = inr r' -> k <> RevisionField ->
  Revision r' = Revision r.
Proof.
  intros H Hk. unfold patchField in H.
  destruct v;
    repeat match type of H with
           | (if ?b then _ else _) = _ => destruct b eqn:?
           end;
    try (inversion H; subst; reflexivity); try discriminate.
  apply String.eqb_eq in Heqb. contradiction.
Qed.

Lemma patchList_Revision kvs : forall r r',
  patchList r kvs = inr r' ->
  Forall (fun kv => fst kv <> RevisionField) kvs ->
  Revision r' = Revision r.
Proof.
  induction kvs as [|[k v] rest IH]; intros r r' H HF; cbn [patchList] in H.
  - inversion H; reflexivity.
  - destruct (patchField r (k, v)) as [e|r1] eqn:E; [discriminate H|].
    inversion HF as [|? ? Hk HF']; subst.
    rewrite (IH _ _ H HF'). eapply patchField_Revision; eauto.
Qed.

Lemma patch_Revision r (d : RuntimeDiff) r' :
  d !! RevisionField = None -> patch r d = inr r' ->
  Revision r' = Revision r.
Proof.
  intros Hd H. unfold patch in H.
  eapply patchList_Revision; [exact H|].
  apply Forall_forall. intros [k v] Hin. simpl. intros ->.
  apply elem_of_map_to_list in Hin. congruence.
Qed.

(** ** Facts about updateRevision *)

Lemma updateRevision_present nw cur h l c :
  Revision cur = Some l -> h !! l = Some c ->
  updateRevision nw cur h = (cur, <[l := bumpRevision nw c]> h).
Proof.
  intros Hr Hl. unfold updateRevision. rewrite Hr.
  cbv beta iota zeta. rewrite Hr. f_equal. apply list_eq. intros i.
  destruct (decide (i = l)) as [->|Hne].
  - rewrite list_lookup_alter_eq, Hl. simpl.
    rewrite list_lookup_insert_eq; [reflexivity|].
    eapply lookup_lt_Some; eauto.
  - rewrite list_lookup_alter_ne by congruence.
    rewrite list_lookup_insert_ne by congruence. reflexivity.
Qed.

Lemma updateRevision_nil nw cur h :
  Revision cur = None ->
  updateRevision nw cur h
  = (withRevision cur (Some (length h)),
     h ++ [bumpRevision nw (mkChangeLog 0 (wrap64 nw) 0)]).
Proof.
  intros Hr. unfold updateRevision, alloc. rewrite Hr.
  cbv beta iota zeta. cbn [withRevision Revision].
  f_equal. apply list_eq. intros i.
  destruct (decide (i = length h)) as [->|Hne].
  - rewrite list_lookup_alter_eq.
    rewrite !lookup_app_r by lia. rewrite Nat.sub_diag. reflexivity.
  - rewrite list_lookup_alter_ne by congruence.
    destruct (decide (i < length h)%nat).
    + rewrite !lookup_app_l by lia. reflexivity.
    + rewrite !lookup_app_r by lia.
      destruct (i - length h)%nat eqn:E; [lia|reflexivity].
Qed.

(** ** validateState and PatchRuntime *)

Section Properties.

Variable ParseRunID : string -> option Z.
Variable IsPelotonStateTerminal : TaskState -> bool.

Lemma validateTransition_terminal current new :
  IsPelotonStateTerminal current = true -> new <> current ->
  validateTransition IsPelotonStateTerminal current new = false.
Proof.
  intros Hterm Hne. unfold validateTransition, TaskState_eqb.
  rewrite bool_decide_eq_false_2 by exact Hne. rewrite Hterm. reflexivity.
Qed.

(** X1. "cannot overwrite terminal state without changing the mesos task
    id": whatever the terminal states are, an update out of one of them to
    another state that leaves the mesos task id alone is rejected. *)
Theorem validateState_terminal_overwrite cur new :
  IsPelotonStateTerminal (State cur) = true ->
  State new <> State cur ->
  mesosTaskIdChanged cur new = false ->
  validateState ParseRunID IsPelotonStateTerminal cur (Some new) = false.
Proof.
  intros Hterm Hne Hsame. unfold validateState. rewrite Hsame.
  destruct (desiredRunIdDecreases ParseRunID cur new); [reflexivity|].
  apply validateTransition_terminal; assumption.
Qed.

(** "update to KILLING state from any non-terminal state is ok". *)
Lemma validateTransition_killing current :
  IsPelotonStateTerminal current = false ->
  validateTransition IsPelotonStateTerminal current KILLING = true.
Proof.
  intros Hterm. unfold validateTransition. rewrite Hterm.
  destruct current; reflexivity.
Qed.

Lemma PatchRuntime_unfold env (d : RuntimeDiff) t cur h new :
  d !! RevisionField = None ->
  jobConfigError env = None ->
  loadRuntime env t = inr (cur, h) ->
  patch cur d = inr new ->
  PatchRuntime ParseRunID IsPelotonStateTerminal env (Some d) t
  = if negb (validateState ParseRunID IsPelotonStateTerminal cur (Some new))
    then (None, setRuntime t (Some cur) h)
    else match updateTaskRuntimeErr env with
         | Some err =>
             (Some err, setRuntime t None (snd (updateRevision (now env) cur h)))
         | None =>
             let h2 := snd (updateRevision (now env) cur h) in
             (None, mkTask (Some new) h2 (now env) (Some (freeze h2 new)))
         end.
Proof.
  intros Hd Hjob Hload Hpatch. unfold PatchRuntime. rewrite Hd.
  unfold jobConfigError in Hjob.
  destruct (cachedJob env) as [[err|jt]|]; try discriminate Hjob;
    rewrite Hload, Hpatch;
    destruct (negb _); try reflexivity;
    destruct (updateRevision (now env) cur h) as [c2 h2];
    destruct (updateTaskRuntimeErr env); reflexivity.
Qed.

Lemma setRuntime_cached t cur :
  runtime t = Some cur -> setRuntime t (Some cur) (heap t) = t.
Proof. intros H. destruct t; simpl in *. subst. reflexivity. Qed.

Lemma loadRuntime_cached env t cur :
  runtime t = Some cur -> loadRuntime env t = inr (cur, heap t).
Proof. intros H. unfold loadRuntime. rewrite H. reflexivity. Qed.

(** C5 (amended). Once a diff has passed the argument checks (it is not nil
    and has no Revision key), the job configuration was read and the current
    runtime is at hand (the cached one, or the one reloaded from the store
    when the cache is empty), a patched runtime that validateState rejects is
    ignored: PatchRuntime returns no error and writes nothing to the task
    store, the cache holds the current runtime, and a task whose cache was
    populated is left exactly as it was. *)
Theorem PatchRuntime_rejected_patch_ignored env (d : RuntimeDiff) t cur h new :
  d !! RevisionField = None ->
  jobConfigError env = None ->
  loadRuntime env t = inr (cur, h) ->
  patch cur d = inr new ->
  validateState ParseRunID IsPelotonStateTerminal cur (Some new) = false ->
  let result := PatchRuntime ParseRunID IsPelotonStateTerminal env (Some d) t in
  fst result = None
  /\ taskStore (snd result) = taskStore t
  /\ lastRuntimeUpdateTime (snd result) = lastRuntimeUpdateTime t
  /\ runtime (snd result) = Some cur
  /\ (is_Some (runtime t) -> snd result = t).
Proof.
  intros Hd Hjob Hload Hpatch Hrej result. subst result.
  rewrite (PatchRuntime_unfold _ _ _ _ _ _ Hd Hjob Hload Hpatch), Hrej.
  cbn [negb fst snd]. repeat split.
  intros [c Hc]. rewrite (loadRuntime_cached env t c Hc) in Hload.
  inversion Hload; subst. apply setRuntime_cached. exact Hc.
Qed.

(** validateMesosTaskID compares run-ids unless the previous id has the
    length of a pre-migration id (more than twice a UUID). *)
Lemma validateMesosTaskID_run_id mesosTaskID prevMesosTaskID :
  validateMesosTaskID ParseRunID mesosTaskID prevMesosTaskID = true ->
  isLegacyLength prevMesosTaskID = false ->
  exists newRunID currentRunID,
    ParseRunID mesosTaskID = Some newRunID
    /\ ParseRunID prevMesosTaskID = Some currentRunID
    /\ currentRunID <= newRunID.
Proof.
  intros Hv Hprev. unfold validateMesosTaskID in Hv. rewrite Hprev in Hv.
  rewrite andb_false_r in Hv.
  destruct (ParseRunID mesosTaskID) as [n|]; [|discriminate Hv].
  destruct (ParseRunID prevMesosTaskID) as [c|]; [|discriminate Hv].
  exists n, c. repeat split. apply Z.leb_le. exact Hv.
Qed.

(** C6 (amended). An update that validateState accepts and that changes the
    mesos task id sets the state to INITIALIZED, and, unless the current id
    has the length of a pre-migration id, both run-ids parse and the new one
    is greater than or equal to the current one.  An accepted update that
    leaves the mesos task id alone and carries a desired mesos task id
    obeys the same rule for the desired ids. *)
Theorem validateState_run_id_monotone cur new :
  validateState ParseRunID IsPelotonStateTerminal cur (Some new) = true ->
  (mesosTaskIdChanged cur new = true ->
     State new = INITIALIZED
     /\ (isLegacyLength (GetValue (MesosTaskId cur)) = false ->
         exists newRunID currentRunID,
           ParseRunID (GetValue (MesosTaskId new)) = Some newRunID
           /\ ParseRunID (GetValue (MesosTaskId cur)) = Some currentRunID
           /\ currentRunID <= newRunID))
  /\ (mesosTaskIdChanged cur new = false ->
      is_Some (DesiredMesosTaskId new) ->
      isLegacyLength (GetValue (DesiredMesosTaskId cur)) = false ->
      exists newRunID currentRunID,
        ParseRunID (GetValue (DesiredMesosTaskId new)) = Some newRunID
        /\ ParseRunID (GetValue (DesiredMesosTaskId cur)) = Some currentRunID
        /\ currentRunID <= newRunID).
Proof.
  intros Hv. unfold validateState in Hv. split.
  - intros Hch. rewrite Hch in Hv.
    destruct (validateMesosTaskID ParseRunID (GetValue (MesosTaskId new))
                (GetValue (MesosTaskId cur))) eqn:Hid;
      [|discriminate Hv].
    cbn [negb] in Hv. unfold TaskState_eqb in Hv. split.
    + destruct (decide (State new = INITIALIZED)) as [E|E]; [exact E|].
      rewrite bool_decide_eq_false_2 in Hv by exact E. discriminate Hv.
    + intros Hlen. apply validateMesosTaskID_run_id; assumption.
  - intros Hch [d Hd] Hlen. rewrite Hch in Hv.
    unfold desiredRunIdDecreases in Hv. rewrite Hd in Hv. rewrite <- Hd in Hv.
    destruct (validateMesosTaskID ParseRunID (GetValue (DesiredMesosTaskId new))
                (GetValue (DesiredMesosTaskId cur))) eqn:Hid;
      [|discriminate Hv].
    apply validateMesosTaskID_run_id; assumption.
Qed.

(** The version the cache answers for: t.runtime.GetRevision().GetVersion(),
    which the nil-safe getters make 0 for an empty cache. *)
Definition cachedVersion (t : task) : Z :=
  match runtime t with
  | Some cur => GetVersion (heap t) cur
  | None => 0
  end.

Lemma ReplaceRuntime_unfold r l t :
  Revision r = Some l ->
  ReplaceRuntime (Some r) false t
  = if match runtime t with
       | None => true
       | Some cur => GetVersion (heap t) cur <? GetVersion (heap t) r
       end
    then (None, setRuntime t (Some r) (heap t))
    else (None, t).
Proof. intros H. unfold ReplaceRuntime. rewrite H. reflexivity. Qed.

(** C10 (amended). A PatchRuntime that is applied to a runtime carrying a
    revision caches the patched runtime with the version incremented by one
    (a uint64 increment), and stores it at that version.  ReplaceRuntime
    without forceReplace returns no error and installs the incoming runtime
    when the cache is empty or the incoming version is strictly greater than
    the cached one; otherwise it leaves the task as it is; either way the
    version the cache answers for does not decrease.  A nil runtime or a nil
    revision is rejected with an invalid-argument error and no change. *)
Theorem revision_version_monotone env (d : RuntimeDiff) t cur h new l c :
  d !! RevisionField = None ->
  jobConfigError env = None ->
  loadRuntime env t = inr (cur, h) ->
  patch cur d = inr new ->
  validateState ParseRunID IsPelotonStateTerminal cur (Some new) = true ->
  updateTaskRuntimeErr env = None ->
  Revision cur = Some l ->
  h !! l = Some c ->
  (let result := PatchRuntime ParseRunID IsPelotonStateTerminal env (Some d) t in
   fst result = None
   /\ runtime (snd result) = Some new
   /\ cachedVersion (snd result) = wrap64 (Version c + 1)
   /\ (Revision <$> taskStore (snd result))
      = Some (Some (bumpRevision (now env) c))
   /\ (0 <= Version c -> Version c + 1 < 2 ^ 64 ->
       cachedVersion (snd result) = Version c + 1))
  /\ (forall r lr t0, Revision r = Some lr ->
        let result := ReplaceRuntime (Some r) false t0 in
        fst result = None
        /\ (runtime t0 = None -> snd result = setRuntime t0 (Some r) (heap t0))
        /\ (cachedVersion t0 < GetVersion (heap t0) r ->
            snd result = setRuntime t0 (Some r) (heap t0))
        /\ (is_Some (runtime t0) ->
            GetVersion (heap t0) r <= cachedVersion t0 -> snd result = t0)
        /\ (is_Some (runtime t0) ->
            cachedVersion t0 <= cachedVersion (snd result)))
  /\ (forall force t0,
        ReplaceRuntime None force t0
        = (Some (InvalidArgument
             "ReplaceRuntime expects a non-nil runtime with non-nil Revision"),
           t0))
  /\ (forall r force t0, Revision r = None ->
        ReplaceRuntime (Some r) force t0
        = (Some (InvalidArgument
             "ReplaceRuntime expects a non-nil runtime with non-nil Revision"),
           t0)).
Proof.
  intros Hd Hjob Hload Hpatch Hok Hwrite Hrev Hl.
  split; [|split; [|split]].
  - intros result. subst result.
    rewrite (PatchRuntime_unfold _ _ _ _ _ _ Hd Hjob Hload Hpatch), Hok, Hwrite.
    rewrite (updateRevision_present _ _ _ _ _ Hrev Hl).
    cbn [negb fst snd runtime heap taskStore].
    pose proof (patch_Revision _ _ _ Hd Hpatch) as Hnew.
    assert (Hlook : <[l:=bumpRevision (now env) c]> h !! l
                    = Some (bumpRevision (now env) c)).
    { apply list_lookup_insert_eq. eapply lookup_lt_Some; eauto. }
    assert (Hver : cachedVersion
                     (mkTask (Some new) (<[l:=bumpRevision (now env) c]> h)
                        (now env)
                        (Some (freeze (<[l:=bumpRevision (now env) c]> h) new)))
                   = wrap64 (Version c + 1)).
    { unfold cachedVersion, GetVersion, deref. cbn [runtime heap].
      rewrite Hnew, Hrev, Hlook. reflexivity. }
    repeat split.
    + exact Hver.
    + cbn [fmap option_fmap option_map]. unfold freeze, deref.
      rewrite Hnew, Hrev, Hlook. reflexivity.
    + intros H0 H1. rewrite Hver. unfold wrap64. apply Z.mod_small. lia.
  - intros r lr t0 Hr result. subst result.
    rewrite (ReplaceRuntime_unfold _ _ _ Hr). unfold cachedVersion.
    destruct (runtime t0) as [cur0|] eqn:Hc.
    + destruct (GetVersion (heap t0) cur0 <? GetVersion (heap t0) r) eqn:Hlt;
        cbn [fst snd].
      * apply Z.ltb_lt in Hlt. repeat split; try discriminate.
        -- intros _ Hle. lia.
        -- intros _. cbn [setRuntime runtime heap]. lia.
      * apply Z.ltb_ge in Hlt. repeat split; try discriminate.
        -- intros Hgt. lia.
        -- intros _. rewrite Hc. lia.
    + cbn [fst snd]. repeat split; intros [x Hx]; discriminate Hx.
  - intros force t0. reflexivity.
  - intros r force t0 Hr. unfold ReplaceRuntime. rewrite Hr. reflexivity.
Qed.

(** X2. "if state update is not requested, then return true": an update
    that keeps the state, leaves the mesos task id alone and does not lower
    the desired run-id is accepted. *)
Theorem validateState_same_state cur new :
  mesosTaskIdChanged cur new = false ->
  desiredRunIdDecreases ParseRunID cur new = false ->
  State new = State cur ->
  validateState ParseRunID IsPelotonStateTerminal cur (Some new) = true.
Proof.
  intros Hid Hdes Hst. unfold validateState. rewrite Hid, Hdes.
  unfold validateTransition, TaskState_eqb.
  rewrite bool_decide_eq_true_2 by exact Hst. reflexivity.
Qed.

(** X7. A new run is accepted from any state, terminal ones included: an
    update that changes the mesos task id to one validateMesosTaskID accepts
    and sets the state to INITIALIZED passes validateState.  This is the
    shape of the diff a retry writes. *)
Theorem validateState_new_run_accepted cur new :
  mesosTaskIdChanged cur new = true ->
  validateMesosTaskID ParseRunID (GetValue (MesosTaskId new))
                      (GetValue (MesosTaskId cur)) = true ->
  State new = INITIALIZED ->
  validateState ParseRunID IsPelotonStateTerminal cur (Some new) = true.
Proof.
  intros Hch Hid Hst. unfold validateState. rewrite Hch, Hid, Hst. reflexivity.
Qed.

(** X3. The argument checks of PatchRuntime: a nil diff, and a diff that
    names the Revision field, are answered with an invalid-argument error
    and leave the task untouched. *)
Theorem PatchRuntime_argument_checks env t :
  PatchRuntime ParseRunID IsPelotonStateTerminal env None t
  = (Some (InvalidArgument "unexpected nil diff"), t)
  /\ (forall (d : RuntimeDiff) v,
        d !! RevisionField = Some v ->
        PatchRuntime ParseRunID IsPelotonStateTerminal env (Some d) t
        = (Some (InvalidArgument "unexpected Revision field in diff"), t)).
Proof.
  split; [reflexivity|]. intros d v Hd. unfold PatchRuntime. rewrite Hd.
  reflexivity.
Qed.

(** X4. "clean the runtime in cache on DB write failure": when an accepted
    patch cannot be written to the task store, PatchRuntime returns the
    store's error, empties the cache and leaves the stored row and the
    update time as they were. *)
Theorem PatchRuntime_write_failure_clears_cache env (d : RuntimeDiff) t cur h
    new err :
  d !! RevisionField = None ->
  jobConfigError env = None ->
  loadRuntime env t = inr (cur, h) ->
  patch cur d = inr new ->
  validateState ParseRunID IsPelotonStateTerminal cur (Some new) = true ->
  updateTaskRuntimeErr env = Some err ->
  let result := PatchRuntime ParseRunID IsPelotonStateTerminal env (Some d) t in
  fst result = Some err
  /\ runtime (snd result) = None
  /\ taskStore (snd result) = taskStore t
  /\ lastRuntimeUpdateTime (snd result) = lastRuntimeUpdateTime t.
Proof.
  intros Hd Hjob Hload Hpatch Hok Hwrite result. subst result.
  rewrite (PatchRuntime_unfold _ _ _ _ _ _ Hd Hjob Hload Hpatch), Hok, Hwrite.
  repeat split.
Qed.

End Properties.

(** X5. No state is owned both by the resource manager and by mesos. *)
Theorem ownership_tables_disjoint state :
  IsResMgrOwnedState state && IsMesosOwnedState state = false.
Proof. destruct state; reflexivity. Qed.

(** X6. ReplaceRuntime with forceReplace installs the incoming runtime
    whatever the versions are, and returns no error. *)
Theorem ReplaceRuntime_force r l t :
  Revision r = Some l ->
  ReplaceRuntime (Some r) true t = (None, setRuntime t (Some r) (heap t)).
Proof. intros H. unfold ReplaceRuntime. rewrite H. reflexivity. Qed.

(** ** Concrete tasks used by the witnesses and counterexamples *)

Definition validateState_model :=
  validateState ParseRunID_model IsPelotonStateTerminal_model.

Definition PatchRuntime_model :=
  PatchRuntime ParseRunID_model IsPelotonStateTerminal_model.

Definition quietEnv : Env := mkEnv 1000 None None None.

Definition runtimeAt (state : TaskState) (rev : option loc) : RuntimeInfo :=
  mkRuntime state SUCCEEDED (Some "job-0-1"%string) None None 1 0
            EmptyString EmptyString rev.

Definition rowAt (state : TaskState) (version : Z) : RuntimeRow :=
  withRevision (runtimeAt state None) (Some (mkChangeLog version 10 20)).

(** A task whose cache holds a runtime in [state] at revision [version]. *)
Definition cachedTaskAt (state : TaskState) (version : Z) : task :=
  mkTask (Some (runtimeAt state (Some 0%nat))) [mkChangeLog version 10 20] 50
         (Some (rowAt state version)).

(** The same task with an empty cache. *)
Definition uncachedTaskAt (state : TaskState) (version : Z) : task :=
  mkTask None [] 50 (Some (rowAt state version)).

Definition stateDiff (state : TaskState) : RuntimeDiff :=
  {[ StateField := VState state ]}.

Lemma PatchRuntime_rejected_patch_ignored_witness :
  validateState_model (runtimeAt SUCCEEDED (Some 0%nat))
                      (Some (runtimeAt RUNNING (Some 0%nat))) = false
  /\ (let result := PatchRuntime_model quietEnv (Some (stateDiff RUNNING))
                                       (cachedTaskAt SUCCEEDED 3) in
      fst result = None
      /\ taskStore (snd result) = taskStore (cachedTaskAt SUCCEEDED 3)
      /\ lastRuntimeUpdateTime (snd result) = 50
      /\ runtime (snd result) = Some (runtimeAt SUCCEEDED (Some 0%nat))
      /\ (is_Some (runtime (cachedTaskAt SUCCEEDED 3)) ->
          snd result = cachedTaskAt SUCCEEDED 3)).
Proof.
  split; [vm_compute; reflexivity|].
  apply (PatchRuntime_rejected_patch_ignored
           ParseRunID_model IsPelotonStateTerminal_model quietEnv
           (stateDiff RUNNING) (cachedTaskAt SUCCEEDED 3)
           (runtimeAt SUCCEEDED (Some 0%nat)) [mkChangeLog 3 10 20]
           (runtimeAt RUNNING (Some 0%nat)));
    vm_compute; reflexivity.
Defined.

(** C5 as stated fails in two ways.  With an empty cache the rejected patch
    (SUCCEEDED to RUNNING, the mesos task id unchanged) is ignored, yet the
    cached runtime does change: it goes from nil to the runtime reloaded
    from the store.  And the graph validateState enforces is not the one the
    specification declares: PENDING to SUCCEEDED is no declared transition,
    and PatchRuntime applies it to the cache and to the store. *)
Lemma PatchRuntime_rejected_patch_counterexample :
  (runtime (uncachedTaskAt SUCCEEDED 3) = None
   /\ PatchRuntime_model quietEnv (Some (stateDiff RUNNING))
                         (uncachedTaskAt SUCCEEDED 3)
      = (None, cachedTaskAt SUCCEEDED 3))
  /\ (declaredTransition PENDING SUCCEEDED = false
      /\ PatchRuntime_model quietEnv (Some (stateDiff SUCCEEDED))
                            (cachedTaskAt PENDING 3)
         = (None, mkTask (Some (runtimeAt SUCCEEDED (Some 0%nat)))
                         [mkChangeLog 4 10 1000] 1000
                         (Some (withRevision (runtimeAt SUCCEEDED None)
                                             (Some (mkChangeLog 4 10 1000)))))).
Proof. vm_compute. repeat split. Qed.

(** Two mesos task ids of the pre-migration form job-instance-uuid whose
    last group happens to be decimal. *)
Definition legacyId7 : string :=
  "3c8a3c3e-71e3-49c5-9aed-2929823f595c-1-3c8a3c3e-71e3-49c5-9aed-000000000007".
Definition legacyId5 : string :=
  "3c8a3c3e-71e3-49c5-9aed-2929823f595c-1-3c8a3c3e-71e3-49c5-9aed-000000000005".

Definition runtimeWithId (state : TaskState) (id : string) : RuntimeInfo :=
  mkRuntime state SUCCEEDED (Some id) None None 1 0 EmptyString EmptyString
            (Some 0%nat).

Lemma validateState_run_id_monotone_witness :
  validateState_model (runtimeWithId FAILED "job-0-1")
                      (Some (runtimeWithId INITIALIZED "job-0-2")) = true
  /\ State (runtimeWithId INITIALIZED "job-0-2") = INITIALIZED
  /\ exists newRunID currentRunID,
       ParseRunID_model "job-0-2" = Some newRunID
       /\ ParseRunID_model "job-0-1" = Some currentRunID
       /\ currentRunID <= newRunID.
Proof.
  pose proof (validateState_run_id_monotone
                ParseRunID_model IsPelotonStateTerminal_model
                (runtimeWithId FAILED "job-0-1")
                (runtimeWithId INITIALIZED "job-0-2") eq_refl) as [H _].
  destruct (H eq_refl) as [Hs Hr].
  split; [reflexivity|]. split; [exact Hs|]. exact (Hr eq_refl).
Defined.

(** C6 as stated fails on ids of the pre-migration length: the update below
    changes the mesos task id from run 7 to run 5 and is accepted, because
    validateMesosTaskID answers true for two ids longer than twice a UUID
    before it parses anything. *)
Lemma validateState_run_id_counterexample :
  isLegacyLength legacyId7 = true
  /\ isLegacyLength legacyId5 = true
  /\ ParseRunID_model legacyId7 = Some 7
  /\ ParseRunID_model legacyId5 = Some 5
  /\ mesosTaskIdChanged (runtimeWithId FAILED legacyId7)
                        (runtimeWithId INITIALIZED legacyId5) = true
  /\ validateState_model (runtimeWithId FAILED legacyId7)
                         (Some (runtimeWithId INITIALIZED legacyId5)) = true.
Proof. vm_compute. repeat split. Qed.

Lemma revision_version_monotone_witness :
  (let result := PatchRuntime_model quietEnv (Some (stateDiff RUNNING))
                                    (cachedTaskAt STARTING 3) in
   fst result = None
   /\ runtime (snd result) = Some (runtimeAt RUNNING (Some 0%nat))
   /\ cachedVersion (snd result) = 4)
  /\ (let result := ReplaceRuntime (Some (runtimeAt RUNNING (Some 0%nat))) false
                                   (uncachedTaskAt RUNNING 3) in
      fst result = None).
Proof.
  pose proof (revision_version_monotone
                ParseRunID_model IsPelotonStateTerminal_model quietEnv
                (stateDiff RUNNING) (cachedTaskAt STARTING 3)
                (runtimeAt STARTING (Some 0%nat)) [mkChangeLog 3 10 20]
                (runtimeAt RUNNING (Some 0%nat)) 0%nat (mkChangeLog 3 10 20)
                ltac:(vm_compute; reflexivity) eq_refl eq_refl
                ltac:(vm_compute; reflexivity) ltac:(vm_compute; reflexivity)
                eq_refl eq_refl eq_refl) as [HP [HR _]].
  split.
  - destruct HP as (H1 & H2 & H3 & _). repeat split; assumption.
  - exact (proj1 (HR (runtimeAt RUNNING (Some 0%nat)) 0%nat
                     (uncachedTaskAt RUNNING 3) eq_refl)).
Defined.

(** C10 as stated fails on an empty cache: ReplaceRuntime without
    forceReplace installs an incoming runtime at version 0, which is not
    strictly greater than the version the empty cache answers for. *)
Lemma ReplaceRuntime_empty_cache_counterexample :
  let t := mkTask None [mkChangeLog 0 10 20] 50 (Some (rowAt RUNNING 0)) in
  let r := runtimeAt RUNNING (Some 0%nat) in
  runtime t = None
  /\ cachedVersion t = 0
  /\ GetVersion (heap t) r = 0
  /\ ReplaceRuntime (Some r) false t
     = (None, mkTask (Some r) [mkChangeLog 0 10 20] 50 (Some (rowAt RUNNING 0))).
Proof. vm_compute. repeat split. Qed.

(** What the amended C10 leaves out: on a cached runtime whose Revision is
    nil, updateRevision creates the ChangeLog on the struct that is about to
    be replaced, so the runtime that is stored and cached keeps a nil
    Revision and its version stays 0. *)
Example PatchRuntime_nil_revision_not_bumped :
  let t := mkTask (Some (runtimeAt STARTING None)) [] 50 None in
  let result := PatchRuntime_model quietEnv (Some (stateDiff RUNNING)) t in
  fst result = None
  /\ runtime (snd result) = Some (runtimeAt RUNNING None)
  /\ cachedVersion (snd result) = 0
  /\ taskStore (snd result) = Some (withRevision (runtimeAt RUNNING None) None).
Proof. vm_compute. repeat split. Qed.

(** What the amended C6 leaves out: when the mesos task id changes,
    validateState returns before it looks at the desired mesos task id, so a
    desired id whose run-id decreases (5 to 3) passes with a new run. *)
Example validateState_desired_id_unchecked_on_new_run :
  let cur := mkRuntime FAILED SUCCEEDED (Some "job-0-1"%string) None
               (Some "job-0-5"%string) 1 0 EmptyString EmptyString (Some 0%nat) in
  let new := mkRuntime INITIALIZED SUCCEEDED (Some "job-0-2"%string) None
               (Some "job-0-3"%string) 1 0 EmptyString EmptyString (Some 0%nat) in
  validateMesosTaskID ParseRunID_model "job-0-3" "job-0-5" = false
  /\ validateState_model cur (Some new) = true.
Proof. vm_compute. repeat split. Qed.

Lemma validateState_terminal_overwrite_witness :
  IsPelotonStateTerminal_model SUCCEEDED = true
  /\ validateState_model (runtimeAt SUCCEEDED (Some 0%nat))
                         (Some (runtimeAt RUNNING (Some 0%nat))) = false.
Proof.
  split; [reflexivity|].
  apply (validateState_terminal_overwrite ParseRunID_model
           IsPelotonStateTerminal_model (runtimeAt SUCCEEDED (Some 0%nat))
           (runtimeAt RUNNING (Some 0%nat)));
    [reflexivity|discriminate|reflexivity].
Defined.

Lemma validateState_same_state_witness :
  validateState_model (runtimeAt RUNNING (Some 0%nat))
                      (Some (runtimeAt RUNNING (Some 0%nat))) = true.
Proof.
  apply (validateState_same_state ParseRunID_model
           IsPelotonStateTerminal_model); reflexivity.
Defined.

Lemma PatchRuntime_write_failure_clears_cache_witness :
  let env := mkEnv 1000 None None (Some (StoreError "write timeout")) in
  let result := PatchRuntime_model env (Some (stateDiff RUNNING))
                                   (cachedTaskAt STARTING 3) in
  fst result = Some (StoreError "write timeout")
  /\ runtime (snd result) = None
  /\ taskStore (snd result) = Some (rowAt STARTING 3)
  /\ lastRuntimeUpdateTime (snd result) = 50.
Proof.
  apply (PatchRuntime_write_failure_clears_cache
           ParseRunID_model IsPelotonStateTerminal_model
           (mkEnv 1000 None None (Some (StoreError "write timeout")))
           (stateDiff RUNNING) (cachedTaskAt STARTING 3)
           (runtimeAt STARTING (Some 0%nat)) [mkChangeLog 3 10 20]
           (runtimeAt RUNNING (Some 0%nat)));
    vm_compute; reflexivity.
Defined.

Lemma ReplaceRuntime_force_witness :
  ReplaceRuntime (Some (runtimeAt RUNNING (Some 0%nat))) true
                 (cachedTaskAt SUCCEEDED 9)
  = (None, setRuntime (cachedTaskAt SUCCEEDED 9)
                      (Some (runtimeAt RUNNING (Some 0%nat)))
                      (heap (cachedTaskAt SUCCEEDED 9))).
Proof.
  apply (ReplaceRuntime_force (runtimeAt RUNNING (Some 0%nat)) 0%nat).
  reflexivity.
Defined.

Lemma validateState_new_run_accepted_witness :
  IsPelotonStateTerminal_model FAILED = true
  /\ validateState_model (runtimeWithId FAILED "job-0-1")
                         (Some (runtimeWithId INITIALIZED "job-0-2")) = true.
Proof.
  split; [reflexivity|].
  apply (validateState_new_run_accepted ParseRunID_model
           IsPelotonStateTerminal_model (runtimeWithId FAILED "job-0-1")
           (runtimeWithId INITIALIZED "job-0-2")); reflexivity.
Defined.

(** ** The rest of the task interface: CreateRuntime, GetRunTime,
       CurrentState *)

(** TaskStateVector; the fields are State, ConfigVersion and MesosTaskID. *)
Record TaskStateVector := mkVector {
  vState : TaskState;
  vConfigVersion : Z;
  vMesosTaskID : option string
}.

(** CurrentState reads t.runtime through the nil-safe getters, so an empty
    cache answers the zero values; it does not reload from the store. *)
Definition CurrentState (t : task) : TaskStateVector :=
  match runtime t with
  | Some r => mkVector (State r) (ConfigVersion r) (MesosTaskId r)
  | None => mkVector UNKNOWN 0 None
  end.

(** The job type handed to the store: the cached job's, or the zero value of
    pbjob.JobType when the job is not in the cache. *)
Definition jobTypeOf (env : Env) : JobType :=
  match cachedJob env with
  | Some (inr jobType) => jobType
  | _ => BATCH
  end.

Section WithStore.

(** storage.TaskStore.CreateTaskRuntime is not among the sources.  It is
    handed the runtime pointer, so it may write through it; it answers an
    error or nil, and decides what the stored row is afterwards.  The cache
    code is embedded over any such store: the arguments are the heap, the
    stored row, the runtime, the owner and the job type, the results the
    error, the runtime struct as the store left it, the heap and the row. *)
Variable CreateTaskRuntime :
  Heap -> option RuntimeRow -> RuntimeInfo -> string -> JobType ->
  option Err * RuntimeInfo * Heap * option RuntimeRow.

Definition CreateRuntime (env : Env) (rt : RuntimeInfo) (owner : string)
    (t : task) : option Err * task :=
  match cachedJob env with
  | Some (inl err) => (Some err, t)
  | _ =>
      match CreateTaskRuntime (heap t) (taskStore t) rt owner (jobTypeOf env) with
      | (Some err, _, h, row) =>
          (Some err, mkTask None h (lastRuntimeUpdateTime t) row)
      | (None, rt', h, row) => (None, mkTask (Some rt') h (now env) row)
      end
  end.

End WithStore.

(** The phase of a run a state belongs to, by the owner of the state:
    the states of the resource manager's table (1), LAUNCHED (2), the states
    of the mesos table and KILLING (3), and every other state, INITIALIZED
    among them (0). *)
Definition phase (s : TaskState) : nat :=
  if IsMesosOwnedState s || TaskState_eqb s KILLING then 3
  else if TaskState_eqb s LAUNCHED then 2
  else if IsResMgrOwnedState s then 1
  else 0.

(** The cache agrees with the task store: a cached runtime is the stored
    row. *)
Definition coherent (t : task) : Prop :=
  forall r, runtime t = Some r -> taskStore t = Some (freeze (heap t) r).

Lemma withRevision_withRevision {R S T : Type} (r : RuntimeInfoOf R)
    (x : option S) (y : option T) :
  withRevision (withRevision r x) y = withRevision r y.
Proof. reflexivity. Qed.

Lemma withRevision_Revision {R : Type} (r : RuntimeInfoOf R) :
  withRevision r (Revision r) = r.
Proof. destruct r; reflexivity. Qed.

(** What the store hands back is what it holds. *)
Lemma thaw_freeze h row r h' :
  thaw h row = (r, h') -> freeze h' r = row.
Proof.
  unfold thaw, alloc, freeze. intros H.
  destruct (Revision row) as [c|] eqn:Hrev; inversion H; subst; clear H.
  - cbn [withRevision Revision deref].
    rewrite lookup_app_r by lia. rewrite Nat.sub_diag. cbn [lookup list_lookup].
    destruct row; cbn in *. subst. reflexivity.
  - destruct row; cbn in *. subst. reflexivity.
Qed.

Lemma loadRuntime_coherent env t cur h :
  coherent t -> loadRuntime env t = inr (cur, h) ->
  coherent (setRuntime t (Some cur) h).
Proof.
  intros Hco Hload r Hr. cbn [setRuntime runtime heap taskStore] in *.
  inversion Hr; subst r; clear Hr. unfold loadRuntime in Hload.
  destruct (runtime t) as [c|] eqn:Hc.
  - inversion Hload; subst. apply Hco. exact Hc.
  - unfold GetTaskRuntime in Hload.
    destruct (getTaskRuntimeErr env); [discriminate Hload|].
    destruct (taskStore t) as [row|]; [|discriminate Hload].
    inversion Hload as [Hthaw]. f_equal. symmetry.
    eapply thaw_freeze. exact Hthaw.
Qed.

Section Operations.

Variable ParseRunID : string -> option Z.
Variable IsPelotonStateTerminal : TaskState -> bool.

(** The operations of the task interface that go through the task store. *)
Inductive CacheOp :=
  | OpPatchRuntime (env : Env) (diff : option RuntimeDiff)
  | OpGetRunTime (env : Env).

Definition stepCache (t : task) (op : CacheOp) : task :=
  match op with
  | OpPatchRuntime env diff =>
      snd (PatchRuntime ParseRunID IsPelotonStateTerminal env diff t)
  | OpGetRunTime env => snd (GetRunTime env t)
  end.

Lemma PatchRuntime_coherent env diff t :
  coherent t ->
  coherent (snd (PatchRuntime ParseRunID IsPelotonStateTerminal env diff t)).
Proof.
  intros Hco. unfold PatchRuntime.
  destruct diff as [d|]; [|exact Hco].
  destruct (d !! RevisionField); [exact Hco|].
  assert (Hmain :
    coherent (snd
      match loadRuntime env t with
      | inl err => (Some err, t)
      | inr (cur, h) =>
          let t1 := setRuntime t (Some cur) h in
          match patch cur d with
          | inl err => (Some err, t1)
          | inr newRuntime =>
              if negb (validateState ParseRunID IsPelotonStateTerminal cur
                         (Some newRuntime))
              then (None, t1)
              else
                let '(_, h2) := updateRevision (now env) cur h in
                match updateTaskRuntimeErr env with
                | Some err => (Some err, setRuntime t None h2)
                | None =>
                    (None, mkTask (Some newRuntime) h2 (now env)
                                  (Some (freeze h2 newRuntime)))
                end
          end
      end)).
  { destruct (loadRuntime env t) as [err|[cur h]] eqn:Hload; [exact Hco|].
    pose proof (loadRuntime_coherent env t cur h Hco Hload) as Hco1.
    cbv zeta. destruct (patch cur d) as [err|new]; [exact Hco1|].
    destruct (negb _); [exact Hco1|].
    destruct (updateRevision (now env) cur h) as [c2 h2].
    destruct (updateTaskRuntimeErr env).
    - intros r Hr. discriminate Hr.
    - intros r Hr. cbn [snd runtime heap taskStore] in *.
      inversion Hr; subst. reflexivity. }
  destruct (cachedJob env) as [[err|jt]|]; [exact Hco|exact Hmain|exact Hmain].
Qed.

Lemma GetRunTime_coherent env t :
  coherent t -> coherent (snd (GetRunTime env t)).
Proof.
  intros Hco. unfold GetRunTime.
  destruct (loadRuntime env t) as [err|[r h]] eqn:Hload; [exact Hco|].
  exact (loadRuntime_coherent env t r h Hco Hload).
Qed.

(** X8. PatchRuntime and GetRunTime keep the cache in step with the task
    store: if a cached runtime is the stored row before a sequence of these
    operations, whatever their arguments and whichever of them fail, then a
    cached runtime is the stored row after it. *)
Theorem cache_coherent_with_store ops t :
  coherent t -> coherent (foldl stepCache t ops).
Proof.
  revert t. induction ops as [|op ops IH]; intros t Hco; [exact Hco|].
  cbn [foldl]. apply IH. destruct op as [env diff|env]; cbn [stepCache].
  - apply PatchRuntime_coherent. exact Hco.
  - apply GetRunTime_coherent. exact Hco.
Qed.

(** X9. GetRunTime answers from the cache when it can and fills the cache
    when it cannot: a failed call leaves the task as it was, with its cache
    empty; a successful call leaves the answered runtime in the cache and
    the stored row alone, changes nothing on a task whose cache was
    populated, and every later call answers the same runtime without a
    change, whatever the task store does by then. *)
Theorem GetRunTime_caches env t :
  match GetRunTime env t with
  | (inl err, t') => t' = t /\ runtime t = None
  | (inr r, t') =>
      runtime t' = Some r
      /\ taskStore t' = taskStore t
      /\ lastRuntimeUpdateTime t' = lastRuntimeUpdateTime t
      /\ match runtime t with Some r0 => r = r0 /\ t' = t | None => True end
      /\ forall env', GetRunTime env' t' = (inr r, t')
  end.
Proof.
  unfold GetRunTime, loadRuntime.
  destruct (runtime t) as [r0|] eqn:Hc.
  - rewrite !(setRuntime_cached t r0 Hc), ?Hc. repeat split.
    intros _. rewrite (setRuntime_cached t r0 Hc). reflexivity.
  - destruct (GetTaskRuntime env t) as [err|[r h]]; [split; reflexivity|].
    repeat split.
Qed.

(** X10. A patch that is applied can be read back: after a PatchRuntime
    that validateState accepts and the task store writes, the last update
    time is the time of the call, CurrentState reports the patched state,
    configuration version and mesos task id, and GetRunTime answers the
    patched runtime from the cache, whatever the task store does by then. *)
Theorem PatchRuntime_then_GetRunTime env (d : RuntimeDiff) t cur h new :
  d !! RevisionField = None ->
  jobConfigError env = None ->
  loadRuntime env t = inr (cur, h) ->
  patch cur d = inr new ->
  validateState ParseRunID IsPelotonStateTerminal cur (Some new) = true ->
  updateTaskRuntimeErr env = None ->
  let t' := snd (PatchRuntime ParseRunID IsPelotonStateTerminal env (Some d) t) in
  lastRuntimeUpdateTime t' = now env
  /\ CurrentState t' = mkVector (State new) (ConfigVersion new) (MesosTaskId new)
  /\ forall env', GetRunTime env' t' = (inr new, t').
Proof.
  intros Hd Hjob Hload Hpatch Hok Hwrite t'. subst t'.
  rewrite (PatchRuntime_unfold _ _ _ _ _ _ _ _ Hd Hjob Hload Hpatch), Hok, Hwrite.
  cbn [negb snd]. repeat split.
Qed.

Lemma validateTransition_phase current new :
  validateTransition IsPelotonStateTerminal current new = true ->
  (phase current <= phase new)%nat.
Proof.
  unfold validateTransition.
  destruct (IsPelotonStateTerminal current), (IsPelotonStateTerminal new);
    destruct current, new; intros H; vm_compute in H; try discriminate H;
    vm_compute; lia.
Qed.

(** X11. Without a new mesos task id a task never moves back to an earlier
    owner: an update that validateState accepts and that leaves the mesos
    task id alone does not lower the phase of the state, where INITIALIZED
    and the states no table lists come first, then the resource manager's
    states, then LAUNCHED, then the states mesos reports and KILLING.
    So RUNNING, FAILED or LOST never go back to PENDING, and no state that
    mesos reports goes back to LAUNCHED, whatever the terminal states are. *)
Theorem validateState_never_moves_back cur new :
  mesosTaskIdChanged cur new = false ->
  validateState ParseRunID IsPelotonStateTerminal cur (Some new) = true ->
  (phase (State cur) <= phase (State new))%nat.
Proof.
  intros Hid Hv. unfold validateState in Hv. rewrite Hid in Hv.
  destruct (desiredRunIdDecreases ParseRunID cur new); [discriminate Hv|].
  apply validateTransition_phase. exact Hv.
Qed.

(** X12. "update to KILLING state from any non-terminal state is ok", and
    from no other: an update to KILLING that leaves the mesos task id alone
    and does not lower the desired run-id is accepted exactly when the
    current state is KILLING already or is not terminal. *)
Theorem validateState_to_killing cur new :
  mesosTaskIdChanged cur new = false ->
  desiredRunIdDecreases ParseRunID cur new = false ->
  State new = KILLING ->
  validateState ParseRunID IsPelotonStateTerminal cur (Some new)
  = TaskState_eqb (State cur) KILLING
    || negb (IsPelotonStateTerminal (State cur)).
Proof.
  intros Hid Hdes Hst. unfold validateState. rewrite Hid, Hdes, Hst.
  unfold validateTransition.
  destruct (IsPelotonStateTerminal (State cur));
    destruct (State cur); reflexivity.
Qed.

(** X13. "Update from KILLING state to only terminal states is allowed": an
    accepted update of a task in KILLING that leaves the mesos task id alone
    keeps it in KILLING or moves it to a state that mesos reports and that
    is terminal. *)
Theorem validateState_from_killing cur new :
  State cur = KILLING ->
  mesosTaskIdChanged cur new = false ->
  validateState ParseRunID IsPelotonStateTerminal cur (Some new) = true ->
  State new = KILLING
  \/ (IsMesosOwnedState (State new) = true
      /\ IsPelotonStateTerminal (State new) = true).
Proof.
  intros Hcur Hid Hv. unfold validateState in Hv. rewrite Hid in Hv.
  destruct (desiredRunIdDecreases ParseRunID cur new); [discriminate Hv|].
  rewrite Hcur in Hv. unfold validateTransition in Hv.
  destruct (IsPelotonStateTerminal KILLING);
    destruct (IsPelotonStateTerminal (State new)) eqn:Hterm;
    destruct (State new); cbn in Hv; try discriminate Hv;
    first [left; reflexivity | right; split; reflexivity].
Qed.

(** A diff that names the mesos task id leaves it to patch to change it;
    any other diff leaves the mesos task id of the runtime alone. *)
Lemma patchField_MesosTaskId r k v r' :
  patchField r (k, v) = inr r' -> k <> MesosTaskIDField ->
  MesosTaskId r' = MesosTaskId r.
Proof.
  intros Hp Hk. unfold patchField in Hp.
  destruct v;
    repeat match type of Hp with
           | (if ?b then _ else _) = _ => destruct b eqn:?
           end;
    try (inversion Hp; subst; reflexivity); try discriminate.
  apply String.eqb_eq in Heqb. contradiction.
Qed.

Lemma patchList_MesosTaskId kvs : forall r r',
  patchList r kvs = inr r' ->
  Forall (fun kv => fst kv <> MesosTaskIDField) kvs ->
  MesosTaskId r' = MesosTaskId r.
Proof.
  induction kvs as [|[k v] rest IH]; intros r r' Hp HF; cbn [patchList] in Hp.
  - inversion Hp; reflexivity.
  - destruct (patchField r (k, v)) as [e|r1] eqn:E; [discriminate Hp|].
    inversion HF as [|? ? Hk HF']; subst.
    rewrite (IH _ _ Hp HF'). eapply patchField_MesosTaskId; eauto.
Qed.

Lemma patch_MesosTaskId r (d : RuntimeDiff) r' :
  d !! MesosTaskIDField = None -> patch r d = inr r' ->
  MesosTaskId r' = MesosTaskId r.
Proof.
  intros Hd Hp. unfold patch in Hp.
  eapply patchList_MesosTaskId; [exact Hp|].
  apply Forall_forall. intros [k v] Hin. simpl. intros ->.
  apply elem_of_map_to_list in Hin. congruence.
Qed.

Lemma mesosTaskIdChanged_same cur new :
  MesosTaskId new = MesosTaskId cur -> mesosTaskIdChanged cur new = false.
Proof.
  intros E. unfold mesosTaskIdChanged. rewrite E.
  destruct (MesosTaskId cur); [|reflexivity].
  rewrite String.eqb_refl. reflexivity.
Qed.

(** Every runtime the task holds, cached or stored, is in state [s]. *)
Definition settledIn (s : TaskState) (t : task) : Prop :=
  (forall r, runtime t = Some r -> State r = s)
  /\ (forall row, taskStore t = Some row -> State row = s).

(** The diff of the operation, if it is a patch, does not name the mesos
    task id. *)
Definition keepsMesosTaskId (op : CacheOp) : Prop :=
  match op with
  | OpPatchRuntime _ (Some d) => d !! MesosTaskIDField = None
  | _ => True
  end.

Lemma thaw_State h row r h' : thaw h row = (r, h') -> State r = State row.
Proof.
  unfold thaw, alloc. intros Ht.
  destruct (Revision row); inversion Ht; reflexivity.
Qed.

Lemma loadRuntime_settled env t s cur h :
  settledIn s t -> loadRuntime env t = inr (cur, h) ->
  State cur = s /\ settledIn s (setRuntime t (Some cur) h).
Proof.
  intros [Hc Hs] Hload.
  assert (Hcur : State cur = s).
  { unfold loadRuntime in Hload. destruct (runtime t) as [c|] eqn:E.
    - inversion Hload; subst. apply Hc. reflexivity.
    - unfold GetTaskRuntime in Hload.
      destruct (getTaskRuntimeErr env); [discriminate Hload|].
      destruct (taskStore t) as [row|] eqn:Er; [|discriminate Hload].
      inversion Hload as [Hthaw]. rewrite (thaw_State _ _ _ _ Hthaw).
      apply Hs. reflexivity. }
  split; [exact Hcur|]. split.
  - intros r Hr. cbn in Hr. inversion Hr. congruence.
  - exact Hs.
Qed.

Lemma stepCache_settled s t op :
  IsPelotonStateTerminal s = true -> keepsMesosTaskId op ->
  settledIn s t -> settledIn s (stepCache t op).
Proof.
  intros Hterm Hkeep Hset. destruct op as [env diff|env]; cbn [stepCache].
  - unfold PatchRuntime. destruct diff as [d|]; [|exact Hset].
    cbn [keepsMesosTaskId] in Hkeep.
    destruct (d !! RevisionField); [exact Hset|].
    assert (Hmain :
      settledIn s (snd
        match loadRuntime env t with
        | inl err => (Some err, t)
        | inr (cur, h) =>
            let t1 := setRuntime t (Some cur) h in
            match patch cur d with
            | inl err => (Some err, t1)
            | inr newRuntime =>
                if negb (validateState ParseRunID IsPelotonStateTerminal cur
                           (Some newRuntime))
                then (None, t1)
                else
                  let '(_, h2) := updateRevision (now env) cur h in
                  match updateTaskRuntimeErr env with
                  | Some err => (Some err, setRuntime t None h2)
                  | None =>
                      (None, mkTask (Some newRuntime) h2 (now env)
                                    (Some (freeze h2 newRuntime)))
                  end
            end
        end)).
    { destruct (loadRuntime env t) as [err|[cur h]] eqn:Hload; [exact Hset|].
      destruct (loadRuntime_settled env t s cur h Hset Hload) as [Hcur Hset1].
      cbv zeta. destruct (patch cur d) as [err|new] eqn:Hpatch; [exact Hset1|].
      destruct (validateState ParseRunID IsPelotonStateTerminal cur (Some new))
        eqn:Hv; cbn [negb]; [|exact Hset1].
      assert (Hnew : State new = s).
      { destruct (decide (State new = State cur)) as [E|E]; [congruence|].
        assert (Hsame : mesosTaskIdChanged cur new = false).
        { apply mesosTaskIdChanged_same.
          eapply patch_MesosTaskId; eassumption. }
        assert (Hcurterm : IsPelotonStateTerminal (State cur) = true)
          by congruence.
        unfold validateState in Hv. rewrite Hsame in Hv.
        destruct (desiredRunIdDecreases ParseRunID cur new);
          [discriminate Hv|].
        rewrite (validateTransition_terminal IsPelotonStateTerminal
                   (State cur) (State new) Hcurterm E) in Hv.
        discriminate Hv. }
      destruct (updateRevision (now env) cur h) as [c2 h2].
      destruct (updateTaskRuntimeErr env).
      - split; [intros r Hr; discriminate Hr|]. exact (proj2 Hset).
      - split; intros r Hr; cbn in Hr; inversion Hr; cbn; congruence. }
    destruct (cachedJob env) as [[err|jt]|]; [exact Hset|exact Hmain|exact Hmain].
  - unfold GetRunTime.
    destruct (loadRuntime env t) as [err|[r h]] eqn:Hload; [exact Hset|].
    exact (proj2 (loadRuntime_settled env t s r h Hset Hload)).
Qed.

(** X25. A terminal state stays: if every runtime a task holds, in the
    cache or in the store, is in one terminal state, then it is still so
    after any sequence of GetRunTime calls and of PatchRuntime calls whose
    diffs do not name the mesos task id, whichever of them fail.  Only a
    new mesos task id takes a task out of a terminal state. *)
Theorem terminal_state_stays s ops t :
  IsPelotonStateTerminal s = true ->
  Forall keepsMesosTaskId ops ->
  settledIn s t ->
  settledIn s (foldl stepCache t ops).
Proof.
  intros Hterm Hops. revert t.
  induction Hops as [|op ops Hop _ IH]; intros t Hset; [exact Hset|].
  cbn [foldl]. apply IH. apply stepCache_settled; assumption.
Qed.

Section StoreProperties.

Variable CreateTaskRuntime :
  Heap -> option RuntimeRow -> RuntimeInfo -> string -> JobType ->
  option Err * RuntimeInfo * Heap * option RuntimeRow.

(** X14. CreateRuntime writes to the store first and caches second.  When
    the job configuration cannot be read the task is left untouched.  When
    the store answers an error the error is returned and the cache is empty
    afterwards, also if it held a runtime before, so that CurrentState
    answers UNKNOWN.  When the store answers nil the cache holds the runtime
    as the store left it, the last update time is the time of the call, and
    GetRunTime answers that runtime from the cache. *)
Theorem CreateRuntime_outcomes env rt owner t :
  let result := CreateRuntime CreateTaskRuntime env rt owner t in
  match jobConfigError env with
  | Some err => result = (Some err, t)
  | None =>
      match CreateTaskRuntime (heap t) (taskStore t) rt owner (jobTypeOf env) with
      | (Some err, _, _, _) =>
          fst result = Some err
          /\ runtime (snd result) = None
          /\ vState (CurrentState (snd result)) = UNKNOWN
          /\ lastRuntimeUpdateTime (snd result) = lastRuntimeUpdateTime t
      | (None, rt', _, _) =>
          fst result = None
          /\ runtime (snd result) = Some rt'
          /\ lastRuntimeUpdateTime (snd result) = now env
          /\ forall env', GetRunTime env' (snd result) = (inr rt', snd result)
      end
  end.
Proof.
  intros result. subst result. unfold CreateRuntime, jobConfigError.
  destruct (cachedJob env) as [[err|jt]|]; [reflexivity| |];
    destruct (CreateTaskRuntime _ _ _ _ _) as [[[[err|] rt'] h] row];
    repeat split.
Qed.

End StoreProperties.

End Operations.

Lemma cache_coherent_with_store_witness :
  coherent (uncachedTaskAt STARTING 3)
  /\ coherent
       (foldl (stepCache ParseRunID_model IsPelotonStateTerminal_model)
          (uncachedTaskAt STARTING 3)
          [OpGetRunTime quietEnv;
           OpPatchRuntime quietEnv (Some (stateDiff RUNNING));
           OpPatchRuntime quietEnv (Some (stateDiff PENDING))]).
Proof.
  assert (H : coherent (uncachedTaskAt STARTING 3)).
  { intros r Hr. discriminate Hr. }
  split; [exact H|].
  apply (cache_coherent_with_store ParseRunID_model
           IsPelotonStateTerminal_model). exact H.
Defined.

Lemma terminal_state_stays_witness :
  IsPelotonStateTerminal_model SUCCEEDED = true
  /\ settledIn SUCCEEDED
       (foldl (stepCache ParseRunID_model IsPelotonStateTerminal_model)
          (cachedTaskAt SUCCEEDED 3)
          [OpPatchRuntime quietEnv (Some (stateDiff RUNNING));
           OpGetRunTime quietEnv;
           OpPatchRuntime quietEnv (Some (stateDiff KILLING))]).
Proof.
  split; [reflexivity|].
  apply (terminal_state_stays ParseRunID_model IsPelotonStateTerminal_model
           SUCCEEDED).
  - reflexivity.
  - repeat constructor.
  - split; intros r Hr; inversion Hr; reflexivity.
Defined.

Lemma PatchRuntime_then_GetRunTime_witness :
  let t' := snd (PatchRuntime_model quietEnv (Some (stateDiff RUNNING))
                                    (cachedTaskAt STARTING 3)) in
  lastRuntimeUpdateTime t' = 1000
  /\ CurrentState t' = mkVector RUNNING 1 (Some "job-0-1"%string)
  /\ forall env',
       GetRunTime env' t' = (inr (runtimeAt RUNNING (Some 0%nat)), t').
Proof.
  apply (PatchRuntime_then_GetRunTime
           ParseRunID_model IsPelotonStateTerminal_model quietEnv
           (stateDiff RUNNING) (cachedTaskAt STARTING 3)
           (runtimeAt STARTING (Some 0%nat)) [mkChangeLog 3 10 20]
           (runtimeAt RUNNING (Some 0%nat)));
    vm_compute; reflexivity.
Defined.

Lemma validateState_never_moves_back_witness :
  validateState_model (runtimeAt PLACED (Some 0%nat))
                      (Some (runtimeAt RUNNING (Some 0%nat))) = true
  /\ (phase PLACED <= phase RUNNING)%nat.
Proof.
  split; [reflexivity|].
  apply (validateState_never_moves_back ParseRunID_model
           IsPelotonStateTerminal_model (runtimeAt PLACED (Some 0%nat))
           (runtimeAt RUNNING (Some 0%nat))); reflexivity.
Defined.

(** The way back that the theorem excludes, at a concrete input: a task
    that mesos reported RUNNING is not taken back to PENDING. *)
Example validateState_running_to_pending_rejected :
  validateState_model (runtimeAt RUNNING (Some 0%nat))
                      (Some (runtimeAt PENDING (Some 0%nat))) = false.
Proof. reflexivity. Qed.

Lemma validateState_to_killing_witness :
  validateState_model (runtimeAt RUNNING (Some 0%nat))
                      (Some (runtimeAt KILLING (Some 0%nat))) = true
  /\ validateState_model (runtimeAt SUCCEEDED (Some 0%nat))
                         (Some (runtimeAt KILLING (Some 0%nat))) = false.
Proof.
  split.
  - exact (validateState_to_killing ParseRunID_model
             IsPelotonStateTerminal_model (runtimeAt RUNNING (Some 0%nat))
             (runtimeAt KILLING (Some 0%nat)) eq_refl eq_refl eq_refl).
  - exact (validateState_to_killing ParseRunID_model
             IsPelotonStateTerminal_model (runtimeAt SUCCEEDED (Some 0%nat))
             (runtimeAt KILLING (Some 0%nat)) eq_refl eq_refl eq_refl).
Defined.

Lemma validateState_from_killing_witness :
  validateState_model (runtimeAt KILLING (Some 0%nat))
                      (Some (runtimeAt KILLED (Some 0%nat))) = true
  /\ (KILLED = KILLING
      \/ (IsMesosOwnedState KILLED = true
          /\ IsPelotonStateTerminal_model KILLED = true)).
Proof.
  split; [reflexivity|].
  apply (validateState_from_killing ParseRunID_model
           IsPelotonStateTerminal_model (runtimeAt KILLING (Some 0%nat))
           (runtimeAt KILLED (Some 0%nat))); reflexivity.
Defined.

End Cached.

(* ===================================================================== *)
(** * placement: the engine's partition of a round's assignments          *)
(* ===================================================================== *)

Module Placement.

(** models.HostOffers, by its hostname. *)
Record HostOffers := mkHost { hostname : string }.

(** models.Task: the resource-manager task id, the placement deadline (a
    time in nanoseconds), the round budget and the rounds used so far. *)
Record Task := mkTask {
  taskId : string;
  deadline : Z;
  maxRounds : nat;
  rounds : nat
}.

(** models.Assignment: a task and the host the strategy chose, if any. *)
Record Assignment := mkAssignment {
  task : Task;
  host : option HostOffers
}.

(** testutil.SetupAssignment(deadline, maxRounds), up to the task it wraps. *)
Definition SetupAssignment (id : string) (deadline : Z) (maxRounds : nat)
  : Assignment :=
  mkAssignment (mkTask id deadline maxRounds 0) None.

Definition SetHost (a : Assignment) (h : HostOffers) : Assignment :=
  mkAssignment (task a) (Some h).

Definition PastDeadline (now : Z) (t : Task) : bool := deadline t <? now.

Definition PastMaxRounds (t : Task) : bool := Nat.leb (maxRounds t) (rounds t).

Definition IncRounds (t : Task) : Task :=
  mkTask (taskId t) (deadline t) (maxRounds t) (S (rounds t)).

Inductive Class := Assigned | Retryable | Unassigned.

#[global] Instance Class_eq_dec : EqDecision Class.
Proof. solve_decision. Defined.

(** Modelled from the spec: engine.filterAssignments is not among the
    sources; only its test is.  Section 4.5, step 3c names the three classes
    by host and deadline.  Where that sentence and the test
    TestEngineFilterAssignments disagree the definition follows the test: an
    assignment with a host counts one more round and is assigned once its
    deadline or its round budget is exhausted, and is retried until then;
    one without a host is retried until its deadline and unassigned after
    (TestEnginePlaceTaskExceedMaxRoundsAndGetsPlaced fixes the round
    budget: five rounds for maxRounds = 5). *)
Definition filterOne (now : Z) (a : Assignment) : Class * Assignment :=
  match host a with
  | None =>
      if PastDeadline now (task a) then (Unassigned, a) else (Retryable, a)
  | Some h =>
      let t := IncRounds (task a) in
      let a' := mkAssignment t (Some h) in
      if PastMaxRounds t || PastDeadline now t then (Assigned, a')
      else (Retryable, a')
  end.

Fixpoint filterAssignments (now : Z) (assignments : list Assignment)
  : list Assignment * list Assignment * list Assignment :=
  match assignments with
  | [] => ([], [], [])
  | a :: rest =>
      let '(assigned, retryable, unassigned) := filterAssignments now rest in
      match filterOne now a with
      | (Assigned, a') => (a' :: assigned, retryable, unassigned)
      | (Retryable, a') => (assigned, a' :: retryable, unassigned)
      | (Unassigned, a') => (assigned, retryable, a' :: unassigned)
      end
  end.

(** The partition as section 4.5, step 3c words it: "assigned (host set,
    deadline not exceeded), retryable (host unset but deadline not
    exceeded), unassigned (deadline exceeded)". *)
Definition specClass (now : Z) (a : Assignment) : Class :=
  if PastDeadline now (task a) then Unassigned
  else match host a with
       | Some _ => Assigned
       | None => Retryable
       end.

(** What places an assignment in each of the engine's three lists. *)
Definition isAssigned (now : Z) (a : Assignment) : Prop :=
  is_Some (host a)
  /\ (PastMaxRounds (task a) = true \/ PastDeadline now (task a) = true).

Definition isRetryable (now : Z) (a : Assignment) : Prop :=
  PastDeadline now (task a) = false
  /\ (host a = None \/ PastMaxRounds (task a) = false).

Definition isUnassigned (now : Z) (a : Assignment) : Prop :=
  host a = None /\ PastDeadline now (task a) = true.

(** The assignment as the round leaves it: one more round if it has a host. *)
Definition afterRound (now : Z) (a : Assignment) : Assignment :=
  snd (filterOne now a).

Lemma filterOne_class now a :
  match fst (filterOne now a) with
  | Assigned => isAssigned now (afterRound now a)
  | Retryable => isRetryable now (afterRound now a)
  | Unassigned => isUnassigned now (afterRound now a)
  end.
Proof.
  unfold afterRound, filterOne, isAssigned, isRetryable, isUnassigned.
  destruct a as [t [h|]]; cbn [host task].
  - destruct (PastMaxRounds (IncRounds t)) eqn:Hr;
      destruct (PastDeadline now (IncRounds t)) eqn:Hd;
      cbn [orb fst snd host task]; rewrite ?Hr, ?Hd; eauto.
  - destruct (PastDeadline now t) eqn:Hd; cbn [fst snd host task];
      rewrite ?Hd; eauto.
Qed.

Lemma classes_exclusive now a :
  (isAssigned now a -> ~ isRetryable now a /\ ~ isUnassigned now a)
  /\ (isRetryable now a -> ~ isUnassigned now a).
Proof.
  unfold isAssigned, isRetryable, isUnassigned. split; [intros HA; split|].
  - destruct HA as [[h Hh] [Hr|Hd]]; intros [Hnd [Hn|Hnr]]; congruence.
  - destruct HA as [[h Hh] _]. intros [Hn _]. congruence.
  - intros [Hnd _] [_ Hd]. congruence.
Qed.

Lemma filterAssignments_cons now a rest :
  filterAssignments now (a :: rest)
  = let '(assigned, retryable, unassigned) := filterAssignments now rest in
    match fst (filterOne now a) with
    | Assigned => (afterRound now a :: assigned, retryable, unassigned)
    | Retryable => (assigned, afterRound now a :: retryable, unassigned)
    | Unassigned => (assigned, retryable, afterRound now a :: unassigned)
    end.
Proof.
  cbn [filterAssignments]. unfold afterRound.
  destruct (filterAssignments now rest) as [[assigned retryable] unassigned].
  destruct (filterOne now a) as [[| |] a']; reflexivity.
Qed.

Lemma filterAssignments_classes now l :
  let '(assigned, retryable, unassigned) := filterAssignments now l in
  Permutation (assigned ++ retryable ++ unassigned) (map (afterRound now) l)
  /\ Forall (isAssigned now) assigned
  /\ Forall (isRetryable now) retryable
  /\ Forall (isUnassigned now) unassigned.
Proof.
  induction l as [|a rest IH].
  - cbn. repeat split; constructor.
  - rewrite filterAssignments_cons.
    destruct (filterAssignments now rest) as [[assigned retryable] unassigned].
    destruct IH as (HP & HA & HR & HU).
    pose proof (filterOne_class now a) as Hc.
    destruct (fst (filterOne now a)); cbn [map];
      (split; [|split; [|split]]);
      try assumption; try (constructor; assumption).
    + rewrite <- HP. symmetry. apply Permutation_middle.
    + rewrite <- HP.
      rewrite (app_assoc assigned retryable (afterRound now a :: unassigned)).
      rewrite <- Permutation_middle. rewrite <- app_assoc. reflexivity.
Qed.

(** C7 (amended). filterAssignments splits the assignments of a round into
    three lists that together hold every assignment exactly once (each as
    the round leaves it, with one more round counted if it has a host) and
    that no assignment can be in two of: assigned are those with a host
    whose deadline or round budget is exhausted, retryable those whose
    deadline has not passed and that have no host or rounds left, unassigned
    those without a host whose deadline has passed. *)
Theorem filterAssignments_partition now l :
  let '(assigned, retryable, unassigned) := filterAssignments now l in
  Permutation (assigned ++ retryable ++ unassigned) (map (afterRound now) l)
  /\ Forall (isAssigned now) assigned
  /\ Forall (isRetryable now) retryable
  /\ Forall (isUnassigned now) unassigned
  /\ (forall a, (a ∈ assigned -> (a ∉ retryable) /\ (a ∉ unassigned))
              /\ (a ∈ retryable -> a ∉ unassigned)).
Proof.
  pose proof (filterAssignments_classes now l) as H.
  destruct (filterAssignments now l) as [[assigned retryable] unassigned].
  destruct H as (HP & HA & HR & HU).
  split; [exact HP|]. split; [exact HA|]. split; [exact HR|].
  split; [exact HU|].
  rewrite Forall_forall in HA, HR, HU.
  intros a. split; [intros Hin; split|]; intros Hin'.
  - exact (proj1 (proj1 (classes_exclusive now a) (HA a Hin)) (HR a Hin')).
  - exact (proj2 (proj1 (classes_exclusive now a) (HA a Hin)) (HU a Hin')).
  - intros Hin''.
    exact (proj2 (classes_exclusive now a) (HR a Hin') (HU a Hin'')).
Qed.

(** TestEngineFilterAssignments: deadline1 is the start of the test, now is
    one second later, deadline2 thirty seconds after now. *)
Definition testHost : HostOffers := mkHost "hostname".
Definition testNow : Z := 1000000000.
Definition deadline1 : Z := 0.
Definition deadline2 : Z := 31000000000.
Definition assignment1 := SetHost (SetupAssignment "task-1" deadline1 1) testHost.
Definition assignment2 := SetHost (SetupAssignment "task-2" deadline2 2) testHost.
Definition assignment3 := SetupAssignment "task-3" deadline2 1.
Definition assignment4 := SetupAssignment "task-4" deadline1 1.

(** C7 as stated fails on the assignments of the engine's own test: the
    assignment with a host and an exceeded deadline is assigned, where the
    section 4.5 wording makes it unassigned, and the one with a host, time
    left and a round left is retryable, where the wording makes it assigned. *)
Lemma filterAssignments_spec_classes_counterexample :
  filterAssignments testNow [assignment1; assignment2; assignment3; assignment4]
  = ([afterRound testNow assignment1],
     [afterRound testNow assignment2; assignment3],
     [assignment4])
  /\ specClass testNow assignment1 = Unassigned
  /\ specClass testNow assignment2 = Assigned.
Proof. vm_compute. repeat split. Qed.

End Placement.

(* ===================================================================== *)
(** * resmgr/respool: leaf pools and their pending queue                  *)
(* ===================================================================== *)

Module ResPool.

(** A quantity of each resource kind (cpu, memory, disk, gpu); the floats of
    the configuration are taken as exact rationals. *)
Record Resources := mkResources { cpu : Q; mem : Q; disk : Q; gpu : Q }.

Definition zeroResources : Resources := mkResources 0 0 0 0.

Definition addResources (a b : Resources) : Resources :=
  mkResources (cpu a + cpu b)%Q (mem a + mem b)%Q (disk a + disk b)%Q
              (gpu a + gpu b)%Q.

Definition leResources (a b : Resources) : bool :=
  Qle_bool (cpu a) (cpu b) && Qle_bool (mem a) (mem b)
  && Qle_bool (disk a) (disk b) && Qle_bool (gpu a) (gpu b).

(** resmgr.Task, as far as the pool reads it. *)
Record Task := mkTask {
  name : string;
  priority : Z;
  jobId : string;
  id : string;
  resource : Resources
}.

(** A gang is the list of its tasks; it is admitted as a whole and carries
    the priority of its first task. *)
Abbreviation Gang := (list Task).

Definition gangPriority (g : Gang) : Z :=
  match g with
  | t :: _ => priority t
  | [] => 0
  end.

Definition gangDemand (g : Gang) : Resources :=
  foldr (fun t acc => addResources (resource t) acc) zeroResources g.

(** An entry of the pending queue: the gang with its priority and the time
    of its enqueue (the pool's own count of enqueues). *)
Record QItem := mkQItem { qPriority : Z; qTime : nat; qGang : Gang }.

(** [ahead y x]: y is served before x, by "(descending priority, ascending
    enqueue time)". *)
Definition ahead (y x : QItem) : bool :=
  (qPriority x <? qPriority y)
  || ((qPriority y =? qPriority x) && Nat.leb (qTime y) (qTime x)).

Fixpoint insertItem (x : QItem) (q : list QItem) : list QItem :=
  match q with
  | [] => [x]
  | y :: rest => if ahead y x then y :: insertItem x rest else x :: y :: rest
  end.

(** A node of the pool tree.  Nodes refer to each other by id. *)
Record ResPool := mkPool {
  poolId : string;
  parent : option string;
  children : list string;
  entitlement : Resources;
  allocation : Resources;
  pendingQueue : list QItem;
  enqueueClock : nat
}.

Inductive Err :=
  | NOT_A_LEAF (pool : string)
  | POOL_NOT_FOUND (pool : string)
  | INVALID_ARGUMENT (msg : string).

Definition isLeaf (p : ResPool) : bool :=
  match children p with
  | [] => true
  | _ => false
  end.

Definition withQueue (p : ResPool) (q : list QItem) (clock : nat) : ResPool :=
  mkPool (poolId p) (parent p) (children p) (entitlement p) (allocation p)
         q clock.

(** Modelled from the spec: resmgr/respool/respool.go is not among the
    sources.  Section 4.1: "EnqueueGang on a non-leaf fails with NOT_A_LEAF";
    section 3: "Minimum gang size is 1"; the queue is kept in priority-FIFO
    order, "gangs ordered by (descending priority, ascending enqueue time)". *)
Definition EnqueueGang (p : ResPool) (gang : Gang) : Err + ResPool :=
  if negb (isLeaf p) then inl (NOT_A_LEAF (poolId p))
  else
    match gang with
    | [] => inl (INVALID_ARGUMENT "gang has no elements")
    | _ =>
        inr (withQueue p
               (insertItem (mkQItem (gangPriority gang) (enqueueClock p) gang)
                           (pendingQueue p))
               (S (enqueueClock p)))
    end.

(** Whether a gang still fits once [used] has been handed out in this call:
    allocation + used + demand stays within the entitlement. *)
Definition admits (p : ResPool) (used : Resources) (g : Gang) : bool :=
  leResources (addResources (allocation p) (addResources used (gangDemand g)))
              (entitlement p).

(** Modelled from the spec: section 4.1, "Dequeue on a leaf returns up to
    limit gangs whose aggregate demand still fits within the pool's current
    entitlement minus current allocation; gangs that do not fit are skipped
    but not removed", read with section 4.4 ("put it back at queue head
    (FIFO-preserving)") and section 5 ("gang enqueue order within equal
    priority is preserved on dequeue"): the call serves the head of the
    queue, and a head that does not fit stays at the head and ends the
    call. *)
Fixpoint takeFitting (p : ResPool) (limit : nat) (used : Resources)
    (q : list QItem) : list QItem * list QItem :=
  match limit, q with
  | S n, x :: rest =>
      if admits p used (qGang x) then
        let '(taken, remaining) :=
          takeFitting p n (addResources used (gangDemand (qGang x))) rest in
        (x :: taken, remaining)
      else ([], q)
  | _, _ => ([], q)
  end.

Definition dequeueItems (p : ResPool) (limit : nat) : list QItem * ResPool :=
  let '(taken, remaining) :=
    takeFitting p limit zeroResources (pendingQueue p) in
  (taken, withQueue p remaining (enqueueClock p)).

Definition DequeueGangList (p : ResPool) (limit : nat)
  : Err + (list Gang * ResPool) :=
  if negb (isLeaf p) then inl (NOT_A_LEAF (poolId p))
  else let '(taken, p') := dequeueItems p limit in inr (map qGang taken, p').

Definition SetEntitlement (p : ResPool) (e : Resources) : ResPool :=
  mkPool (poolId p) (parent p) (children p) e (allocation p)
         (pendingQueue p) (enqueueClock p).

Definition SetAllocation (p : ResPool) (a : Resources) : ResPool :=
  mkPool (poolId p) (parent p) (children p) (entitlement p) a
         (pendingQueue p) (enqueueClock p).

(** The tree: pools by id. *)
Abbreviation Tree := (gmap string ResPool).

Definition EnqueueGangAt (tree : Tree) (pool : string) (gang : Gang)
  : option Err * Tree :=
  match tree !! pool with
  | None => (Some (POOL_NOT_FOUND pool), tree)
  | Some p =>
      match EnqueueGang p gang with
      | inl err => (Some err, tree)
      | inr p' => (None, <[pool := p']> tree)
      end
  end.

(** ** Runs of a leaf pool *)

Inductive Op :=
  | OpEnqueue (gang : Gang)
  | OpDequeue (limit : nat)
  | OpSetEntitlement (e : Resources)
  | OpSetAllocation (a : Resources).

(** One operation on a pool, with the queue entries it dequeued. *)
Definition step (p : ResPool) (op : Op) : ResPool * list QItem :=
  match op with
  | OpEnqueue gang =>
      match EnqueueGang p gang with
      | inr p' => (p', [])
      | inl _ => (p, [])
      end
  | OpDequeue limit =>
      if isLeaf p then let '(taken, p') := dequeueItems p limit in (p', taken)
      else (p, [])
  | OpSetEntitlement e => (SetEntitlement p e, [])
  | OpSetAllocation a => (SetAllocation p a, [])
  end.

(** A run, with the log of everything dequeued, in order. *)
Fixpoint run (p : ResPool) (ops : list Op) : ResPool * list QItem :=
  match ops with
  | [] => (p, [])
  | op :: rest =>
      let '(p1, out) := step p op in
      let '(p2, log) := run p1 rest in
      (p2, out ++ log)
  end.

(** ** The queue order *)

Definition strictAhead (y x : QItem) : Prop :=
  qPriority x < qPriority y
  \/ (qPriority y = qPriority x /\ (qTime y < qTime x)%nat).

(** The queue is in priority-FIFO order and the clock is ahead of every
    enqueue time in it. *)
Definition queueInvariant (p : ResPool) : Prop :=
  StronglySorted strictAhead (pendingQueue p)
  /\ Forall (fun x => (qTime x < enqueueClock p)%nat) (pendingQueue p).

Lemma ahead_true y x :
  ahead y x = true -> (qTime y < qTime x)%nat -> strictAhead y x.
Proof.
  unfold ahead, strictAhead. intros H Ht.
  apply orb_true_iff in H as [H|H].
  - left. apply Z.ltb_lt. exact H.
  - apply andb_true_iff in H as [H _]. right. split; [|exact Ht].
    apply Z.eqb_eq. exact H.
Qed.

Lemma ahead_false y x :
  ahead y x = false -> (qTime y < qTime x)%nat -> qPriority y < qPriority x.
Proof.
  unfold ahead. intros H Ht.
  apply orb_false_iff in H as [H1 H2].
  apply Z.ltb_ge in H1. apply andb_false_iff in H2 as [H2|H2].
  - apply Z.eqb_neq in H2. lia.
  - apply Nat.leb_gt in H2. lia.
Qed.

Lemma insertItem_elem x q y : y ∈ insertItem x q <-> y = x \/ y ∈ q.
Proof.
  induction q as [|z rest IH]; cbn [insertItem].
  - rewrite list_elem_of_singleton. split; [auto|].
    intros [H|H]; [exact H|]. apply elem_of_nil in H. contradiction.
  - destruct (ahead z x); rewrite !elem_of_cons; [rewrite IH|]; tauto.
Qed.

Lemma insertItem_sorted x q :
  StronglySorted strictAhead q ->
  Forall (fun y => (qTime y < qTime x)%nat) q ->
  StronglySorted strictAhead (insertItem x q).
Proof.
  induction q as [|y rest IH]; intros Hs Ht; cbn [insertItem].
  - repeat constructor.
  - apply StronglySorted_cons in Hs as [Hy Hrest].
    apply Forall_cons in Ht as [Hty Htr].
    rewrite Forall_forall in Hy.
    destruct (ahead y x) eqn:Ha.
    + apply StronglySorted_cons. split; [|apply IH; assumption].
      apply Forall_forall. intros z Hz. apply insertItem_elem in Hz as [->|Hz].
      * apply ahead_true; assumption.
      * apply Hy. exact Hz.
    + pose proof (ahead_false _ _ Ha Hty) as Hlt.
      apply StronglySorted_cons. split.
      * apply Forall_cons. split; [left; exact Hlt|].
        apply Forall_forall. intros z Hz. left.
        destruct (Hy z Hz) as [H|[H _]]; lia.
      * apply StronglySorted_cons. split; [apply Forall_forall; exact Hy|].
        exact Hrest.
Qed.

Lemma takeFitting_app p limit : forall used q taken remaining,
  takeFitting p limit used q = (taken, remaining) -> q = taken ++ remaining.
Proof.
  induction limit as [|n IH]; intros used q taken remaining H.
  - destruct q; inversion H; reflexivity.
  - destruct q as [|x rest]; cbn [takeFitting] in H.
    + inversion H; reflexivity.
    + destruct (admits p used (qGang x)).
      * destruct (takeFitting p n (addResources used (gangDemand (qGang x))) rest)
          as [tk rm] eqn:E.
        inversion H; subst. rewrite (IH _ _ _ _ E). reflexivity.
      * inversion H; reflexivity.
Qed.

(** ** The dequeue log *)

(** [logOk log q]: every entry of the log has an earlier enqueue time than
    each entry of equal priority that was dequeued after it or still waits. *)
Fixpoint logOk (log q : list QItem) : Prop :=
  match log with
  | [] => True
  | x :: l =>
      (forall y, y ∈ l ++ q -> qPriority y = qPriority x ->
                 (qTime x < qTime y)%nat)
      /\ logOk l q
  end.

Lemma logOk_enqueue log q x :
  logOk log q ->
  Forall (fun y => (qTime y < qTime x)%nat) log ->
  logOk log (insertItem x q).
Proof.
  induction log as [|z l IH]; intros Hok Ht; cbn [logOk] in *; [exact I|].
  destruct Hok as [Hz Hl]. apply Forall_cons in Ht as [Htz Htl].
  split; [|apply IH; assumption].
  intros y Hy Hp. apply elem_of_app in Hy as [Hy|Hy].
  - apply Hz; [|exact Hp]. apply elem_of_app. left. exact Hy.
  - apply insertItem_elem in Hy as [->|Hy]; [exact Htz|].
    apply Hz; [|exact Hp]. apply elem_of_app. right. exact Hy.
Qed.

Lemma logOk_sorted taken remaining :
  StronglySorted strictAhead (taken ++ remaining) -> logOk taken remaining.
Proof.
  induction taken as [|x t IH]; intros Hs; cbn [logOk]; [exact I|].
  cbn [app] in Hs. apply StronglySorted_cons in Hs as [Hx Hrest].
  split; [|apply IH; exact Hrest].
  intros y Hy Hp. rewrite Forall_forall in Hx.
  destruct (Hx y Hy) as [H|[_ H]]; [lia|exact H].
Qed.

Lemma logOk_dequeue log taken remaining :
  logOk log (taken ++ remaining) ->
  StronglySorted strictAhead (taken ++ remaining) ->
  logOk (log ++ taken) remaining.
Proof.
  induction log as [|x l IH]; intros Hok Hs; cbn [app logOk] in *.
  - apply logOk_sorted. exact Hs.
  - destruct Hok as [Hx Hl]. split; [|apply IH; assumption].
    intros y Hy Hp. apply Hx; [|exact Hp]. rewrite <- app_assoc in Hy. exact Hy.
Qed.

Lemma logOk_order log q x1 x2 :
  logOk log q ->
  x1 ∈ log ++ q -> x2 ∈ log ->
  qPriority x1 = qPriority x2 -> (qTime x1 < qTime x2)%nat ->
  exists l1 l2 l3, log = l1 ++ x1 :: l2 ++ x2 :: l3.
Proof.
  induction log as [|x l IH]; intros Hok H1 H2 Hp Ht.
  - apply elem_of_nil in H2. contradiction.
  - cbn [logOk] in Hok. destruct Hok as [Hx Hl].
    apply elem_of_cons in H2 as [->|H2].
    + exfalso. cbn [app] in H1. apply elem_of_cons in H1 as [->|H1]; [lia|].
      specialize (Hx x1 H1 Hp). lia.
    + cbn [app] in H1. apply elem_of_cons in H1 as [->|H1].
      * apply list_elem_of_split in H2 as (l2 & l3 & ->).
        exists [], l2, l3. reflexivity.
      * destruct (IH Hl H1 H2 Hp Ht) as (l1 & l2 & l3 & ->).
        exists (x :: l1), l2, l3. reflexivity.
Qed.

(** ** The invariant of a run *)

Definition runInvariant (p : ResPool) (log : list QItem) : Prop :=
  queueInvariant p
  /\ Forall (fun x => (qTime x < enqueueClock p)%nat) log
  /\ logOk log (pendingQueue p).

Lemma Forall_lt_S (l : list QItem) c :
  Forall (fun x => (qTime x < c)%nat) l ->
  Forall (fun x => (qTime x < S c)%nat) l.
Proof.
  intros H. eapply Forall_impl; [exact H|]. intros x Hx. cbn in Hx |- *. lia.
Qed.

Lemma EnqueueGang_inr p gang p' :
  EnqueueGang p gang = inr p' ->
  isLeaf p = true
  /\ p' = withQueue p
            (insertItem (mkQItem (gangPriority gang) (enqueueClock p) gang)
                        (pendingQueue p))
            (S (enqueueClock p)).
Proof.
  unfold EnqueueGang. destruct (isLeaf p); cbn [negb]; [|discriminate].
  destruct gang; [discriminate|]. intros H. inversion H. split; reflexivity.
Qed.

Lemma step_invariant p op log :
  runInvariant p log ->
  runInvariant (fst (step p op)) (log ++ snd (step p op)).
Proof.
  intros ((Hs & Hc) & Hlog & Hok). destruct op as [gang|limit|e|a];
    cbn [step].
  - destruct (EnqueueGang p gang) as [err|p'] eqn:E; cbn [fst snd];
      rewrite app_nil_r; [repeat split; assumption|].
    apply EnqueueGang_inr in E as [_ ->].
    unfold runInvariant, queueInvariant. cbn [withQueue pendingQueue enqueueClock].
    repeat split.
    + apply insertItem_sorted; [exact Hs|exact Hc].
    + apply Forall_forall. intros y Hy.
      apply insertItem_elem in Hy as [->|Hy]; [cbn; lia|].
      rewrite Forall_forall in Hc. specialize (Hc y Hy). lia.
    + apply Forall_lt_S. exact Hlog.
    + apply logOk_enqueue; [exact Hok|exact Hlog].
  - destruct (isLeaf p); cbn [fst snd];
      [|rewrite app_nil_r; repeat split; assumption].
    unfold dequeueItems.
    destruct (takeFitting p limit zeroResources (pendingQueue p))
      as [taken remaining] eqn:E.
    cbn [fst snd]. pose proof (takeFitting_app _ _ _ _ _ _ E) as Hq.
    rewrite Hq in Hs, Hc, Hok.
    unfold runInvariant, queueInvariant. cbn [withQueue pendingQueue enqueueClock].
    apply Forall_app in Hc as [Hct Hcr].
    repeat split.
    + eapply StronglySorted_app_1_r. exact Hs.
    + exact Hcr.
    + apply Forall_app. split; assumption.
    + apply logOk_dequeue; assumption.
  - cbn [fst snd]. rewrite app_nil_r. repeat split; assumption.
  - cbn [fst snd]. rewrite app_nil_r. repeat split; assumption.
Qed.

Lemma run_cons p op rest :
  run p (op :: rest)
  = (fst (run (fst (step p op)) rest),
     snd (step p op) ++ snd (run (fst (step p op)) rest)).
Proof.
  cbn [run]. destruct (step p op) as [p1 out]. cbn [fst snd].
  destruct (run p1 rest) as [p2 log]. reflexivity.
Qed.

Lemma run_invariant ops : forall p log,
  runInvariant p log ->
  runInvariant (fst (run p ops)) (log ++ snd (run p ops)).
Proof.
  induction ops as [|op rest IH]; intros p log H.
  - cbn [run fst snd]. rewrite app_nil_r. exact H.
  - rewrite run_cons. cbn [fst snd]. rewrite app_assoc.
    apply IH. apply step_invariant. exact H.
Qed.

Lemma run_app ops1 : forall p ops2,
  run p (ops1 ++ ops2)
  = (fst (run (fst (run p ops1)) ops2),
     snd (run p ops1) ++ snd (run (fst (run p ops1)) ops2)).
Proof.
  induction ops1 as [|op rest IH]; intros p ops2.
  - cbn [app run fst snd]. destruct (run p ops2); reflexivity.
  - cbn [app]. rewrite !run_cons. rewrite IH. cbn [fst snd].
    rewrite app_assoc. reflexivity.
Qed.

(** Nothing leaves the queue but through the log, and the clock only
    advances. *)
Lemma step_keeps p op x :
  x ∈ pendingQueue p ->
  x ∈ snd (step p op) ++ pendingQueue (fst (step p op)).
Proof.
  intros Hx. destruct op as [gang|limit|e|a]; cbn [step].
  - destruct (EnqueueGang p gang) as [err|p'] eqn:E; cbn [fst snd app];
      [exact Hx|].
    apply EnqueueGang_inr in E as [_ ->]. cbn [withQueue pendingQueue].
    apply insertItem_elem. right. exact Hx.
  - destruct (isLeaf p); cbn [fst snd app]; [|exact Hx].
    unfold dequeueItems.
    destruct (takeFitting p limit zeroResources (pendingQueue p))
      as [taken remaining] eqn:E.
    cbn [fst snd withQueue pendingQueue].
    rewrite <- (takeFitting_app _ _ _ _ _ _ E). exact Hx.
  - exact Hx.
  - exact Hx.
Qed.

Lemma run_keeps ops : forall p x,
  x ∈ pendingQueue p ->
  x ∈ snd (run p ops) ++ pendingQueue (fst (run p ops)).
Proof.
  induction ops as [|op rest IH]; intros p x Hx.
  - exact Hx.
  - rewrite run_cons. cbn [fst snd]. rewrite <- app_assoc.
    apply (step_keeps p op) in Hx. apply elem_of_app in Hx as [Hx|Hx].
    + apply elem_of_app. left. exact Hx.
    + apply elem_of_app. right. apply IH. exact Hx.
Qed.

Lemma step_clock p op :
  (enqueueClock p <= enqueueClock (fst (step p op)))%nat.
Proof.
  destruct op as [gang|limit|e|a]; cbn [step].
  - destruct (EnqueueGang p gang) as [err|p'] eqn:E; cbn [fst]; [lia|].
    apply EnqueueGang_inr in E as [_ ->]. cbn. lia.
  - destruct (isLeaf p); cbn [fst]; [|lia]. unfold dequeueItems.
    destruct (takeFitting p limit zeroResources (pendingQueue p)).
    cbn. lia.
  - cbn. lia.
  - cbn. lia.
Qed.

Lemma run_clock ops : forall p,
  (enqueueClock p <= enqueueClock (fst (run p ops)))%nat.
Proof.
  induction ops as [|op rest IH]; intros p.
  - cbn. lia.
  - rewrite run_cons. cbn [fst].
    pose proof (step_clock p op). pose proof (IH (fst (step p op))). lia.
Qed.

Lemma step_isLeaf p op : isLeaf (fst (step p op)) = isLeaf p.
Proof.
  destruct op as [gang|limit|e|a]; cbn [step].
  - destruct (EnqueueGang p gang) as [err|p'] eqn:E; cbn [fst]; [reflexivity|].
    apply EnqueueGang_inr in E as [_ ->]. reflexivity.
  - destruct (isLeaf p) eqn:E; cbn [fst]; [|exact E]. unfold dequeueItems.
    destruct (takeFitting p limit zeroResources (pendingQueue p)).
    cbn [fst]. exact E.
  - reflexivity.
  - reflexivity.
Qed.

Lemma run_isLeaf ops : forall p, isLeaf (fst (run p ops)) = isLeaf p.
Proof.
  induction ops as [|op rest IH]; intros p; [reflexivity|].
  rewrite run_cons. cbn [fst]. rewrite IH. apply step_isLeaf.
Qed.

Lemma EnqueueGang_leaf p gang :
  isLeaf p = true -> gang <> [] ->
  EnqueueGang p gang
  = inr (withQueue p
           (insertItem (mkQItem (gangPriority gang) (enqueueClock p) gang)
                       (pendingQueue p))
           (S (enqueueClock p))).
Proof.
  intros Hl Hg. unfold EnqueueGang. rewrite Hl. cbn [negb].
  destruct gang; [contradiction|reflexivity].
Qed.

Lemma DequeueGangList_head p x rest :
  isLeaf p = true -> pendingQueue p = x :: rest ->
  admits p zeroResources (qGang x) = true ->
  DequeueGangList p 1 = inr ([qGang x], withQueue p rest (enqueueClock p)).
Proof.
  intros Hl Hq Ha. unfold DequeueGangList, dequeueItems.
  rewrite Hl, Hq. cbn [negb takeFitting]. rewrite Ha. reflexivity.
Qed.

(** Two single-task gangs of equal priority that both fit, enqueued into an
    empty leaf pool, come back from two calls of DequeueGangList(1) in the
    order of their enqueue. *)
Lemma successive_dequeue_order p t1 t2 :
  isLeaf p = true -> pendingQueue p = [] ->
  priority t1 = priority t2 ->
  admits p zeroResources [t1] = true ->
  admits p zeroResources [t2] = true ->
  exists p1 p2 p3 p4,
    EnqueueGang p [t1] = inr p1
    /\ EnqueueGang p1 [t2] = inr p2
    /\ DequeueGangList p2 1 = inr ([[t1]], p3)
    /\ DequeueGangList p3 1 = inr ([[t2]], p4).
Proof.
  intros Hl Hq Hp H1 H2.
  set (x1 := mkQItem (priority t1) (enqueueClock p) [t1]).
  set (x2 := mkQItem (priority t2) (S (enqueueClock p)) [t2]).
  exists (withQueue p [x1] (S (enqueueClock p))),
         (withQueue p [x1; x2] (S (S (enqueueClock p)))),
         (withQueue p [x2] (S (S (enqueueClock p)))),
         (withQueue p [] (S (S (enqueueClock p)))).
  split; [|split; [|split]].
  - rewrite (EnqueueGang_leaf p [t1] Hl) by discriminate. rewrite Hq.
    reflexivity.
  - rewrite EnqueueGang_leaf by (try exact Hl; discriminate).
    cbn [withQueue pendingQueue enqueueClock insertItem gangPriority
         poolId parent children entitlement allocation].
    replace (ahead x1 (mkQItem (priority t2) (S (enqueueClock p)) [t2]))
      with true; [reflexivity|].
    unfold ahead, x1. cbn [qPriority qTime].
    rewrite Hp, Z.ltb_irrefl, Z.eqb_refl. cbn [orb andb].
    symmetry. apply Nat.leb_le. lia.
  - rewrite (DequeueGangList_head
               (withQueue p [x1; x2] (S (S (enqueueClock p)))) x1 [x2]);
      [reflexivity|exact Hl|reflexivity|exact H1].
  - rewrite (DequeueGangList_head
               (withQueue p [x2] (S (S (enqueueClock p)))) x2 []);
      [reflexivity|exact Hl|reflexivity|exact H2].
Qed.

(** C1. Take any run of a leaf pool whose queue is in priority-FIFO order,
    in which a gang g1 is enqueued and, later, a gang g2 of the same
    priority.  The enqueue time of g1 is the smaller one, and if g2 is in
    the log of what the run dequeued, g1 stands before it in that log.  In
    particular two single-task gangs of equal priority that fit, enqueued
    into an empty leaf pool, are returned by two successive calls of
    DequeueGangList(1) in their enqueue order. *)
Theorem priority_fifo p0 ops1 g1 ops2 g2 ops3 :
  isLeaf p0 = true ->
  queueInvariant p0 ->
  g1 <> [] -> g2 <> [] ->
  gangPriority g1 = gangPriority g2 ->
  let x1 := mkQItem (gangPriority g1)
                    (enqueueClock (fst (run p0 ops1))) g1 in
  let x2 := mkQItem (gangPriority g2)
                    (enqueueClock (fst (run p0 (ops1 ++ OpEnqueue g1 :: ops2))))
                    g2 in
  let log := snd (run p0 (ops1 ++ OpEnqueue g1 :: ops2
                               ++ OpEnqueue g2 :: ops3)) in
  ((qTime x1 < qTime x2)%nat
   /\ (x2 ∈ log -> exists l1 l2 l3, log = l1 ++ x1 :: l2 ++ x2 :: l3))
  /\ (forall p t1 t2,
        isLeaf p = true -> pendingQueue p = [] ->
        priority t1 = priority t2 ->
        admits p zeroResources [t1] = true ->
        admits p zeroResources [t2] = true ->
        exists p1 p2 p3 p4,
          EnqueueGang p [t1] = inr p1
          /\ EnqueueGang p1 [t2] = inr p2
          /\ DequeueGangList p2 1 = inr ([[t1]], p3)
          /\ DequeueGangList p3 1 = inr ([[t2]], p4)).
Proof.
  intros Hl Hinv Hg1 Hg2 Hp x1 x2 log.
  split; [|exact successive_dequeue_order].
  set (pa := fst (run p0 ops1)).
  assert (Hla : isLeaf pa = true) by (unfold pa; rewrite run_isLeaf; exact Hl).
  set (pa1 := withQueue pa (insertItem x1 (pendingQueue pa))
                        (S (enqueueClock pa))).
  assert (Hstep : step pa (OpEnqueue g1) = (pa1, [])).
  { cbn [step]. rewrite (EnqueueGang_leaf pa g1 Hla Hg1). reflexivity. }
  assert (Hx1 : x1 ∈ pendingQueue pa1).
  { unfold pa1. cbn [withQueue pendingQueue]. apply insertItem_elem. left.
    reflexivity. }
  split.
  - subst x1 x2. cbn [qTime]. rewrite run_app. cbn [fst]. fold pa.
    rewrite run_cons, Hstep. cbn [fst].
    pose proof (run_clock ops2 pa1) as Hc. unfold pa1 in Hc at 1.
    cbn [withQueue enqueueClock] in Hc. lia.
  - intros Hx2.
    assert (Hrun : runInvariant p0 []) by (repeat split; [apply Hinv..|constructor]).
    pose proof (run_invariant
                  (ops1 ++ OpEnqueue g1 :: ops2 ++ OpEnqueue g2 :: ops3)
                  p0 [] Hrun) as (_ & _ & Hok).
    cbn [app] in Hok. fold log in Hok.
    apply (logOk_order _ _ x1 x2 Hok); [|exact Hx2|exact Hp|].
    + subst log. rewrite run_app. cbn [fst snd]. fold pa.
      rewrite run_cons, Hstep. cbn [fst snd app].
      rewrite <- app_assoc. apply elem_of_app. right.
      apply run_keeps. exact Hx1.
    + subst x1 x2. cbn [qTime]. rewrite run_app. cbn [fst]. fold pa.
      rewrite run_cons, Hstep. cbn [fst].
      pose proof (run_clock ops2 pa1) as Hc. unfold pa1 in Hc at 1.
      cbn [withQueue enqueueClock] in Hc. lia.
Qed.

(** The guard of the model: EnqueueGang on a pool that has children answers
    NOT_A_LEAF, whatever the gang, and the tree is what it was. *)
Lemma EnqueueGang_not_a_leaf (tree : Tree) pool p gang :
  tree !! pool = Some p ->
  children p <> [] ->
  EnqueueGang p gang = inl (NOT_A_LEAF (poolId p))
  /\ EnqueueGangAt tree pool gang = (Some (NOT_A_LEAF (poolId p)), tree).
Proof.
  intros Hp Hc.
  assert (H : EnqueueGang p gang = inl (NOT_A_LEAF (poolId p))).
  { unfold EnqueueGang, isLeaf. destruct (children p); [contradiction|].
    reflexivity. }
  split; [exact H|]. unfold EnqueueGangAt. rewrite Hp, H. reflexivity.
Qed.

(** ** The pools and tasks of restree_test.go *)

Definition getEntitlement : Resources := mkResources 100 1000 100 2.

Definition leafPool (name parentName : string) : ResPool :=
  mkPool name (Some parentName) [] zeroResources zeroResources [] 0.

Definition respool1 : ResPool :=
  mkPool "respool1" (Some "root"%string) ["respool11"%string; "respool12"%string]
         zeroResources zeroResources [] 0.

Definition respool11 : ResPool := leafPool "respool11" "respool1".

Definition testTree : Tree :=
  <["respool1"%string := respool1]>
    (<["respool11"%string := respool11]>
       (<["respool12"%string := leafPool "respool12" "respool1"]> ∅)).

Definition taskItem1 : Task :=
  mkTask "job1-1" 0 "job1" "job1-1" (mkResources 1 100 10 0).

Definition taskItem2 : Task :=
  mkTask "job1-2" 0 "job1" "job1-2" (mkResources 1 100 10 0).

Lemma empty_queue_invariant p : pendingQueue p = [] -> queueInvariant p.
Proof. intros H. unfold queueInvariant. rewrite H. split; constructor. Qed.

(** TestPendingQueue: enqueue, set the entitlement, enqueue, then two calls
    of DequeueGangList(1). *)
Definition testPendingQueueRun : ResPool * list QItem :=
  run respool11
      ([] ++ OpEnqueue [taskItem1] :: [OpSetEntitlement getEntitlement]
          ++ OpEnqueue [taskItem2] :: [OpDequeue 1; OpDequeue 1]).

Lemma priority_fifo_witness :
  queueInvariant respool11
  /\ snd testPendingQueueRun
     = [mkQItem 0 0 [taskItem1]; mkQItem 0 1 [taskItem2]]
  /\ exists l1 l2 l3,
       snd testPendingQueueRun
       = l1 ++ mkQItem 0 0 [taskItem1] :: l2 ++ mkQItem 0 1 [taskItem2] :: l3.
Proof.
  assert (Hinv : queueInvariant respool11)
    by (apply empty_queue_invariant; reflexivity).
  assert (Hlog : snd testPendingQueueRun
                 = [mkQItem 0 0 [taskItem1]; mkQItem 0 1 [taskItem2]])
    by (vm_compute; reflexivity).
  split; [exact Hinv|]. split; [exact Hlog|].
  pose proof (priority_fifo respool11 [] [taskItem1]
                [OpSetEntitlement getEntitlement] [taskItem2]
                [OpDequeue 1; OpDequeue 1] eq_refl Hinv
                ltac:(discriminate) ltac:(discriminate) eq_refl)
    as [[_ H] _].
  apply H. change (mkQItem 0 1 [taskItem2] ∈ snd testPendingQueueRun).
  rewrite Hlog. apply elem_of_cons. right. apply elem_of_cons. left.
  reflexivity.
Defined.

(** TestPendingQueueError: respool1 has children. *)
Example TestPendingQueueError :
  EnqueueGangAt testTree "respool1" [taskItem1]
  = (Some (NOT_A_LEAF "respool1"), testTree).
Proof. vm_compute. reflexivity. Qed.

End ResPool.

(* ===================================================================== *)
(** * common/statemachine: the builder of a state machine                 *)
(* ===================================================================== *)

Module StateMachine.

Section Builder.

(** The builder's file declares neither State, Rule, Callback nor
    NewStateMachine.  A State is the key of a Go map; of a Rule the builder
    reads the from field only; a Callback is a func value, nil when it was
    never set.  The builder is embedded over any such types. *)
Context {State : Type} `{Countable State}.
Variable zeroState : State.
Variable Rule : Type.
Variable from : Rule -> State.
Variable Callback : Type.
Variable StateMachine : Type.
Variable Err : Type.
(** &statemachine{}, the machine a new builder starts with. *)
Variable emptyStateMachine : StateMachine.
Variable NewStateMachine :
  string -> State -> gmap State Rule -> option Callback ->
  option StateMachine * option Err.
(** errors.WithStack *)
Variable WithStack : Err -> Err.

Record Builder := mkBuilder {
  statemachine : option StateMachine;
  rules : gmap State Rule;
  current : State;
  name : string;
  transitionCallback : option Callback
}.

Definition NewBuilder : Builder :=
  mkBuilder (Some emptyStateMachine) ∅ zeroState EmptyString None.

Definition WithName (n : string) (b : Builder) : Builder :=
  mkBuilder (statemachine b) (rules b) (current b) n (transitionCallback b).

Definition WithCurrentState (c : State) (b : Builder) : Builder :=
  mkBuilder (statemachine b) (rules b) c (name b) (transitionCallback b).

Definition AddRule (rule : Rule) (b : Builder) : Builder :=
  mkBuilder (statemachine b) (<[from rule := rule]> (rules b)) (current b)
            (name b) (transitionCallback b).

Definition WithTransitionCallback (callback : option Callback) (b : Builder)
  : Builder :=
  mkBuilder (statemachine b) (rules b) (current b) (name b) callback.

(** Build stores what NewStateMachine answered in the builder before it
    looks at the error. *)
Definition Build (b : Builder) : (option StateMachine * option Err) * Builder :=
  let '(sm, err) :=
    NewStateMachine (name b) (current b) (rules b) (transitionCallback b) in
  let b' := mkBuilder sm (rules b) (current b) (name b) (transitionCallback b) in
  match err with
  | Some e => ((None, Some (WithStack e)), b')
  | None => ((sm, None), b')
  end.

(** One call of the fluent interface. *)
Inductive Call :=
  | CallWithName (n : string)
  | CallWithCurrentState (c : State)
  | CallAddRule (rule : Rule)
  | CallWithTransitionCallback (callback : option Callback).

Definition call (b : Builder) (c : Call) : Builder :=
  match c with
  | CallWithName n => WithName n b
  | CallWithCurrentState s => WithCurrentState s b
  | CallAddRule rule => AddRule rule b
  | CallWithTransitionCallback callback => WithTransitionCallback callback b
  end.

Definition namesOf (calls : list Call) : list string :=
  omap (fun c => match c with CallWithName n => Some n | _ => None end) calls.

Definition currentsOf (calls : list Call) : list State :=
  omap (fun c => match c with CallWithCurrentState s => Some s | _ => None end)
       calls.

Definition rulesOf (calls : list Call) : list Rule :=
  omap (fun c => match c with CallAddRule r => Some r | _ => None end) calls.

Definition callbacksOf (calls : list Call) : list (option Callback) :=
  omap (fun c => match c with
                 | CallWithTransitionCallback cb => Some cb
                 | _ => None
                 end) calls.

(** The last rule of [rs] that leaves state [s]. *)
Definition lastRuleFrom (s : State) (rs : list Rule) : option Rule :=
  last (filter (fun r => from r = s) rs).

Lemma lastRuleFrom_snoc s rs r :
  lastRuleFrom s (rs ++ [r])
  = if decide (from r = s) then Some r else lastRuleFrom s rs.
Proof.
  unfold lastRuleFrom. rewrite filter_app, filter_cons, filter_nil.
  destruct (decide (from r = s)) as [E|E].
  - apply last_snoc.
  - rewrite app_nil_r. reflexivity.
Qed.

(** X15. The builder keeps one rule for each state a rule leaves, the last
    one added: after any sequence of calls on a new builder, the name, the
    current state and the callback are those of the last call that set them
    (the zero values when there was none), the rule kept for a state is the
    last rule added that leaves this state, so that an earlier rule from the
    same state is dropped without notice, and Build hands exactly these to
    NewStateMachine, passing its machine on and wrapping its error. *)
Theorem Build_after_calls (calls : list Call) :
  let b := foldl call NewBuilder calls in
  name b = default EmptyString (last (namesOf calls))
  /\ current b = default zeroState (last (currentsOf calls))
  /\ transitionCallback b = default None (last (callbacksOf calls))
  /\ (forall s, rules b !! s = lastRuleFrom s (rulesOf calls))
  /\ fst (Build b)
     = match NewStateMachine (name b) (current b) (rules b)
                             (transitionCallback b) with
       | (_, Some e) => (None, Some (WithStack e))
       | (sm, None) => (sm, None)
       end.
Proof.
  cbv zeta. split; [|split; [|split; [|split]]].
  - induction calls as [|c calls IH] using rev_ind; [reflexivity|].
    rewrite foldl_snoc. unfold namesOf in *. rewrite omap_app.
    destruct c; cbn [call omap WithName WithCurrentState AddRule
                     WithTransitionCallback name];
      rewrite ?app_nil_r; try exact IH.
    cbn [omap list_omap]. rewrite last_snoc. reflexivity.
  - induction calls as [|c calls IH] using rev_ind; [reflexivity|].
    rewrite foldl_snoc. unfold currentsOf in *. rewrite omap_app.
    destruct c; cbn [call omap WithName WithCurrentState AddRule
                     WithTransitionCallback current];
      rewrite ?app_nil_r; try exact IH.
    cbn [omap list_omap]. rewrite last_snoc. reflexivity.
  - induction calls as [|c calls IH] using rev_ind; [reflexivity|].
    rewrite foldl_snoc. unfold callbacksOf in *. rewrite omap_app.
    destruct c; cbn [call omap WithName WithCurrentState AddRule
                     WithTransitionCallback transitionCallback];
      rewrite ?app_nil_r; try exact IH.
    cbn [omap list_omap]. rewrite last_snoc. reflexivity.
  - induction calls as [|c calls IH] using rev_ind; intros s.
    + cbn. apply lookup_empty.
    + rewrite foldl_snoc. unfold rulesOf in *. rewrite omap_app.
      destruct c; cbn [call omap WithName WithCurrentState AddRule
                       WithTransitionCallback rules];
        rewrite ?app_nil_r; try apply IH.
      cbn [omap list_omap]. rewrite lastRuleFrom_snoc.
      destruct (decide (from rule = s)) as [E|E].
      * subst s. apply lookup_insert_eq.
      * rewrite lookup_insert_ne by exact E. apply IH.
  - unfold Build.
    destruct (NewStateMachine _ _ _ _) as [sm [e|]]; reflexivity.
Qed.

End Builder.

End StateMachine.

(* ===================================================================== *)
(** * resmgr/server.go: the leadership callbacks                          *)
(* ===================================================================== *)

Module ResMgrServer.

(** The four components the server reaches through its getters. *)
Inductive Handler :=
  | ResPoolHandler | RecoveryHandler | TaskScheduler | EntitlementCalculator.

Inductive Action := Start | Stop.

Abbreviation Invocation := (Action * Handler)%type.

(** The server, with the value of its Elected gauge and the calls it has
    made on the components so far. *)
Record Server := mkServer {
  ID : string;
  role : string;
  elected : Z;
  invocations : list Invocation
}.

Section Callbacks.

Variable Err : Type.

(** The components are not among the sources: what a Start or Stop answers
    may depend on every call made before it. *)
Variable answer : list Invocation -> Invocation -> option Err.

Definition updateElected (v : Z) (s : Server) : Server :=
  mkServer (ID s) (role s) v (invocations s).

Definition invoke (a : Action) (h : Handler) (s : Server)
  : option Err * Server :=
  (answer (invocations s) (a, h),
   mkServer (ID s) (role s) (elected s) (invocations s ++ [(a, h)])).

Definition GainedLeadershipCallback (s : Server) : option Err * Server :=
  let s := updateElected 1 s in
  match invoke Start ResPoolHandler s with
  | (Some err, s) => (Some err, s)
  | (None, s) =>
      match invoke Start RecoveryHandler s with
      | (Some err, s) => (Some err, s)
      | (None, s) =>
          match invoke Start TaskScheduler s with
          | (Some err, s) => (Some err, s)
          | (None, s) =>
              match invoke Start EntitlementCalculator s with
              | (Some err, s) => (Some err, s)
              | (None, s) => (None, s)
              end
          end
      end
  end.

Definition LostLeadershipCallback (s : Server) : option Err * Server :=
  let s := updateElected 0 s in
  match invoke Stop ResPoolHandler s with
  | (Some err, s) => (Some err, s)
  | (None, s) =>
      match invoke Stop RecoveryHandler s with
      | (Some err, s) => (Some err, s)
      | (None, s) =>
          match invoke Stop TaskScheduler s with
          | (Some err, s) => (Some err, s)
          | (None, s) =>
              match invoke Stop EntitlementCalculator s with
              | (Some err, s) => (Some err, s)
              | (None, s) => (None, s)
              end
          end
      end
  end.

Definition ShutDownCallback (s : Server) : option Err * Server := (None, s).

Definition GetID (s : Server) : string := ID s.

(** The order in which both callbacks go through the components. *)
Definition handlers : list Handler :=
  [ResPoolHandler; RecoveryHandler; TaskScheduler; EntitlementCalculator].

(** What a callback that applies [a] to the components leaves behind: the
    calls made are the first [n] of the fixed order, each but the last one
    answered nil, and the callback returns what the last one answered, or
    nil after all four. *)
Definition stopsAtFirstError (a : Action) (before : list Invocation)
    (err : option Err) (after : list Invocation) : Prop :=
  exists n : nat,
    (n <= 4)%nat
    /\ after = before ++ ((fun h => (a, h)) <$> take n handlers)
    /\ (forall i h, (S i < n)%nat -> handlers !! i = Some h ->
          answer (before ++ ((fun h => (a, h)) <$> take i handlers)) (a, h)
          = None)
    /\ match err with
       | None =>
           n = 4%nat
           /\ answer (before ++ ((fun h => (a, h)) <$> take 3 handlers))
                     (a, EntitlementCalculator) = None
       | Some e =>
           exists i h, n = S i /\ handlers !! i = Some h
             /\ answer (before ++ ((fun h => (a, h)) <$> take i handlers))
                       (a, h) = Some e
       end.

Lemma snoc_snoc {A} (l : list A) (x y : A) : (l ++ [x]) ++ [y] = l ++ [x; y].
Proof. rewrite <- app_assoc. reflexivity. Qed.

Lemma snoc_snoc_snoc {A} (l : list A) (x y z : A) :
  ((l ++ [x]) ++ [y]) ++ [z] = l ++ [x; y; z].
Proof. rewrite <- !app_assoc. reflexivity. Qed.

Lemma snoc4 {A} (l : list A) (x y z w : A) :
  (((l ++ [x]) ++ [y]) ++ [z]) ++ [w] = l ++ [x; y; z; w].
Proof. rewrite <- !app_assoc. reflexivity. Qed.

(** The four calls in a row, for either action. *)
Definition invokeAll (a : Action) (s : Server) : option Err * Server :=
  match invoke a ResPoolHandler s with
  | (Some err, s) => (Some err, s)
  | (None, s) =>
      match invoke a RecoveryHandler s with
      | (Some err, s) => (Some err, s)
      | (None, s) =>
          match invoke a TaskScheduler s with
          | (Some err, s) => (Some err, s)
          | (None, s) => invoke a EntitlementCalculator s
          end
      end
  end.

Lemma invokeAll_stops a s :
  let '(err, s') := invokeAll a s in
  elected s' = elected s
  /\ ID s' = ID s
  /\ stopsAtFirstError a (invocations s) err (invocations s').
Proof.
  unfold invokeAll, invoke. cbn [invocations ID role elected].
  rewrite ?snoc4, ?snoc_snoc_snoc, ?snoc_snoc.
  destruct (answer (invocations s) (a, ResPoolHandler)) as [e1|] eqn:H1.
  { repeat split. exists 1%nat. split; [lia|]. split; [reflexivity|].
    split; [intros i h Hi; lia|].
    exists 0%nat, ResPoolHandler. repeat split.
    cbn [take fmap list_fmap]. rewrite app_nil_r. exact H1. }
  destruct (answer (invocations s ++ [(a, ResPoolHandler)])
                   (a, RecoveryHandler)) as [e2|] eqn:H2.
  { cbn [invocations ID role elected]. rewrite ?snoc_snoc.
    repeat split. exists 2%nat. split; [lia|]. split; [reflexivity|].
    split.
    - intros i h Hi Hh. destruct i as [|i]; [|lia].
      inversion Hh; subst. cbn [take fmap list_fmap]. rewrite app_nil_r.
      exact H1.
    - exists 1%nat, RecoveryHandler. repeat split. exact H2. }
  destruct (answer (invocations s ++ [(a, ResPoolHandler); (a, RecoveryHandler)])
                   (a, TaskScheduler)) as [e3|] eqn:H3.
  { cbn [invocations ID role elected]. rewrite ?snoc_snoc_snoc.
    repeat split. exists 3%nat. split; [lia|]. split; [reflexivity|].
    split.
    - intros i h Hi Hh. destruct i as [|[|i]]; [| |lia];
        inversion Hh; subst; cbn [take fmap list_fmap];
        rewrite ?app_nil_r; assumption.
    - exists 2%nat, TaskScheduler. repeat split. exact H3. }
  cbn [invocations ID role elected]. rewrite ?snoc4.
  assert (Hprev : forall i h, (S i < 4)%nat -> handlers !! i = Some h ->
            answer (invocations s ++ ((fun h => (a, h)) <$> take i handlers))
                   (a, h) = None).
  { intros i h Hi Hh. destruct i as [|[|[|i]]]; [| | |lia];
      inversion Hh; subst; cbn [take fmap list_fmap];
      rewrite ?app_nil_r; assumption. }
  destruct (answer (invocations s
                      ++ [(a, ResPoolHandler); (a, RecoveryHandler);
                          (a, TaskScheduler)])
                   (a, EntitlementCalculator)) as [e4|] eqn:H4.
  - repeat split. exists 4%nat. split; [lia|]. split; [reflexivity|].
    split; [exact Hprev|].
    exists 3%nat, EntitlementCalculator. repeat split. exact H4.
  - repeat split. exists 4%nat. split; [lia|]. split; [reflexivity|].
    split; [exact Hprev|]. split; [reflexivity|exact H4].
Qed.

Lemma GainedLeadershipCallback_invokeAll s :
  GainedLeadershipCallback s = invokeAll Start (updateElected 1 s).
Proof.
  unfold GainedLeadershipCallback, invokeAll. cbv zeta.
  repeat match goal with
         | |- context [invoke ?a ?h ?x] => destruct (invoke a h x) as [[?|] ?]
         end; reflexivity.
Qed.

Lemma LostLeadershipCallback_invokeAll s :
  LostLeadershipCallback s = invokeAll Stop (updateElected 0 s).
Proof.
  unfold LostLeadershipCallback, invokeAll. cbv zeta.
  repeat match goal with
         | |- context [invoke ?a ?h ?x] => destruct (invoke a h x) as [[?|] ?]
         end; reflexivity.
Qed.

(** X16. Both leadership callbacks go through the resource pool handler,
    the recovery handler, the task scheduler and the entitlement calculator
    in this order and stop at the first one that answers an error, which
    they return: the components before it have been started (or stopped)
    and stay so, the ones after it are not called, and nothing is undone.
    The Elected gauge is set to 1 on gaining and to 0 on losing leadership
    before any component is called, so also when the callback fails. *)
Theorem leadership_callbacks_stop_at_first_error (s : Server) :
  (let '(err, s') := GainedLeadershipCallback s in
   elected s' = 1
   /\ ID s' = ID s
   /\ stopsAtFirstError Start (invocations s) err (invocations s'))
  /\ (let '(err, s') := LostLeadershipCallback s in
      elected s' = 0
      /\ ID s' = ID s
      /\ stopsAtFirstError Stop (invocations s) err (invocations s')).
Proof.
  split.
  - rewrite GainedLeadershipCallback_invokeAll.
    exact (invokeAll_stops Start (updateElected 1 s)).
  - rewrite LostLeadershipCallback_invokeAll.
    exact (invokeAll_stops Stop (updateElected 0 s)).
Qed.

End Callbacks.

End ResMgrServer.

(* ===================================================================== *)
(** * placement/offers: the offer service                                 *)
(* ===================================================================== *)

Module Offers.

Definition _failedToAcquireHostOffers : string := "failed to acquire host offers".
Definition _failedToFetchTasksOnHosts : string := "failed to fetch tasks on hosts".

Section Service.

(** The generated protobuf types and placement/models are not among the
    sources.  Of a hostsvc.HostOffer the service reads the Hostname; a
    models.Host is made by NewHost from a host offer, the tasks on the host
    and a time, and answers its offer through GetOffer.  An error is the
    text its Error method answers. *)
Variable HostOffer : Type.
Variable Hostname : HostOffer -> string.
Variable HostFilter : Type.
Variable TaskType : Type.
Variable Task : Type.
Variable Host : Type.
Variable NewHost : HostOffer -> list Task -> Z -> Host.
Variable GetOffer : Host -> HostOffer.

(** map[string]*resmgrsvc.TaskList: [None] for a key is a nil pointer. *)
Abbreviation HostTasksMap := (gmap string (option (list Task))).

(** The calls the service makes on the host manager and on the resource
    manager. *)
Inductive Rpc :=
  | RpcAcquireHostOffers (filter : HostFilter)
  | RpcReleaseHostOffers (hostOffers : list HostOffer)
  | RpcGetTasksByHosts (taskType : TaskType) (hostnames : list string).

(** hostsvc.AcquireHostOffersResponse, with the text of its error if it has
    one. *)
Record AcquireHostOffersResponse := mkAcquireResponse {
  GetError : option string;
  GetHostOffers : list HostOffer;
  GetFilterResultCounts : gmap string Z
}.

(** What the two managers answer may depend on every call made before. *)
Variable AcquireHostOffers :
  list Rpc -> HostFilter -> string + AcquireHostOffersResponse.
Variable GetTasksByHosts :
  list Rpc -> TaskType -> list string -> string + option HostTasksMap.

(** json.Marshal on the filter result counts: the text, or an error. *)
Variable Marshal : gmap string Z -> string + string.

(** The service: the two counters of its metrics and the calls made. *)
Record service := mkService {
  OfferGet : Z;
  OfferGetFail : Z;
  rpcs : list Rpc
}.

Definition called (r : Rpc) (s : service) : service :=
  mkService (OfferGet s) (OfferGetFail s) (rpcs s ++ [r]).

Definition incOfferGet (s : service) : service :=
  mkService (OfferGet s + 1) (OfferGetFail s) (rpcs s).

Definition incOfferGetFail (s : service) : service :=
  mkService (OfferGet s) (OfferGetFail s + 1) (rpcs s).

Definition fetchOffers (filter : HostFilter) (s : service)
  : (string + list HostOffer * gmap string Z) * service :=
  let s' := called (RpcAcquireHostOffers filter) s in
  match AcquireHostOffers (rpcs s) filter with
  | inl err => (inl err, s')
  | inr offersResponse =>
      match GetError offersResponse with
      | Some respErr => (inl respErr, s')
      | None =>
          (inr (GetHostOffers offersResponse,
                GetFilterResultCounts offersResponse), s')
      end
  end.

Definition fetchTasks (hostOffers : list HostOffer) (taskType : TaskType)
    (s : service) : (string + option HostTasksMap) * service :=
  let hostnames := Hostname <$> hostOffers in
  let s' := called (RpcGetTasksByHosts taskType hostnames) s in
  match GetTasksByHosts (rpcs s) taskType hostnames with
  | inl err => (inl err, s')
  | inr hostTasksMap => (inr hostTasksMap, s')
  end.

(** The task list convertOffers hands to NewHost for a host: nil unless the
    map is there and holds a list for the hostname. *)
Definition tasksOn (tasks : option HostTasksMap) (hostname : string)
  : list Task :=
  match tasks with
  | Some m =>
      match m !! hostname with
      | Some (Some taskList) => taskList
      | _ => []
      end
  | None => []
  end.

Definition convertOffers (hostOffers : list HostOffer)
    (tasks : option HostTasksMap) (now : Z) : list Host :=
  (fun hostOffer => NewHost hostOffer (tasksOn tasks (Hostname hostOffer)) now)
    <$> hostOffers.

(** Acquire; [now] is what time.Now() answers when the hosts are made. *)
Definition Acquire (fetchTasksFlag : bool) (taskType : TaskType)
    (filter : HostFilter) (now : Z) (s : service)
  : (list Host * string) * service :=
  match fetchOffers filter s with
  | (inl err, s) => (([], _failedToAcquireHostOffers), incOfferGetFail s)
  | (inr (hostOffers, filterResults), s) =>
      match Marshal filterResults with
      | inl err => (([], err), incOfferGetFail s)
      | inr filterRes =>
          if (length hostOffers =? 0)%nat
          then (([], _failedToAcquireHostOffers), s)
          else
            if fetchTasksFlag && (0 <? length hostOffers)%nat then
              match fetchTasks hostOffers taskType s with
              | (inl err, s) =>
                  (([], _failedToFetchTasksOnHosts), incOfferGetFail s)
              | (inr hostTasksMap, s) =>
                  ((convertOffers hostOffers hostTasksMap now, filterRes),
                   incOfferGet s)
              end
            else
              ((convertOffers hostOffers None now, filterRes), incOfferGet s)
      end
  end.

(** Release: what the host manager answers is logged and nothing else. *)
Definition Release (hosts : list Host) (s : service) : service :=
  if (length hosts =? 0)%nat then s
  else called (RpcReleaseHostOffers (GetOffer <$> hosts)) s.

(** X17. Acquire answers hosts exactly when it counts a successful get.
    With hosts in the answer OfferGet has grown by one, OfferGetFail has
    not, the host manager answered without an error and the reason is the
    JSON text of its filter result counts.  With no hosts OfferGet is
    untouched, and OfferGetFail has grown by one in every case but one: an
    answer of the host manager that holds no host offer is reported with the
    reason "failed to acquire host offers" and is counted neither as a get
    nor as a failure. *)
Theorem Acquire_hosts_and_counters fetchTasksFlag taskType filter now s :
  let '((offers, reason), s') :=
    Acquire fetchTasksFlag taskType filter now s in
  match offers with
  | _ :: _ =>
      OfferGet s' = OfferGet s + 1
      /\ OfferGetFail s' = OfferGetFail s
      /\ exists resp,
           AcquireHostOffers (rpcs s) filter = inr resp
           /\ GetError resp = None
           /\ Marshal (GetFilterResultCounts resp) = inr reason
  | [] =>
      OfferGet s' = OfferGet s
      /\ (OfferGetFail s' = OfferGetFail s + 1
          \/ (OfferGetFail s' = OfferGetFail s
              /\ reason = _failedToAcquireHostOffers
              /\ exists resp,
                   AcquireHostOffers (rpcs s) filter = inr resp
                   /\ GetError resp = None
                   /\ GetHostOffers resp = []))
  end.
Proof.
  unfold Acquire, fetchOffers, fetchTasks.
  destruct (AcquireHostOffers (rpcs s) filter) as [err|resp] eqn:Hresp;
    [cbn; split; [reflexivity|left; reflexivity]|].
  destruct (GetError resp) as [respErr|] eqn:Herr;
    [cbn; split; [reflexivity|left; reflexivity]|].
  destruct (Marshal (GetFilterResultCounts resp)) as [err|filterRes] eqn:Hm;
    [cbn; split; [reflexivity|left; reflexivity]|].
  destruct (GetHostOffers resp) as [|o os] eqn:Hoffers.
  { cbn. split; [reflexivity|]. right. repeat split.
    exists resp. repeat split; assumption. }
  cbn [length Nat.eqb Nat.ltb Nat.leb andb].
  destruct fetchTasksFlag; cbn [andb].
  - destruct (GetTasksByHosts _ _ _) as [err|m];
      [cbn; split; [reflexivity|left; reflexivity]|].
    cbn. repeat split. exists resp. repeat split; assumption.
  - cbn. repeat split. exists resp. repeat split; assumption.
Qed.

(** X18. The hosts Acquire answers are the host offers of the host manager,
    one for one and in their order, each made by NewHost with the tasks
    listed under its hostname.  Without fetchTasks the resource manager is
    not called and every host is made with no task; with fetchTasks it is
    asked once, for the hostnames of the offers in their order, and a host
    whose name the answer does not list, or lists with a nil pointer, is
    made with no task. *)
Theorem Acquire_hosts fetchTasksFlag taskType filter now s :
  fst (fst (Acquire fetchTasksFlag taskType filter now s)) <> [] ->
  let '((offers, reason), s') :=
    Acquire fetchTasksFlag taskType filter now s in
  exists resp tasks,
    AcquireHostOffers (rpcs s) filter = inr resp
    /\ offers
       = (fun hostOffer =>
            NewHost hostOffer (tasksOn tasks (Hostname hostOffer)) now)
         <$> GetHostOffers resp
    /\ if fetchTasksFlag then
         GetTasksByHosts (rpcs s ++ [RpcAcquireHostOffers filter]) taskType
                         (Hostname <$> GetHostOffers resp) = inr tasks
         /\ rpcs s'
            = rpcs s ++ [RpcAcquireHostOffers filter;
                         RpcGetTasksByHosts taskType
                           (Hostname <$> GetHostOffers resp)]
       else
         tasks = None
         /\ rpcs s' = rpcs s ++ [RpcAcquireHostOffers filter].
Proof.
  unfold Acquire, fetchOffers, fetchTasks.
  destruct (AcquireHostOffers (rpcs s) filter) as [err|resp] eqn:Hresp;
    [cbn; congruence|].
  destruct (GetError resp) as [respErr|] eqn:Herr; [cbn; congruence|].
  destruct (Marshal (GetFilterResultCounts resp)) as [err|filterRes] eqn:Hm;
    [cbn; congruence|].
  destruct (GetHostOffers resp) as [|o os] eqn:Hoffers; [cbn; congruence|].
  cbn [length Nat.eqb Nat.ltb Nat.leb andb].
  destruct fetchTasksFlag; cbn [andb].
  - cbn [called rpcs].
    destruct (GetTasksByHosts _ _ _) as [err|m] eqn:Ht; [cbn; congruence|].
    intros _. exists resp, m. rewrite Hoffers. split; [reflexivity|].
    split; [reflexivity|]. split; [exact Ht|].
    cbn [incOfferGet called rpcs]. rewrite <- app_assoc. reflexivity.
  - intros _. exists resp, None. rewrite Hoffers. repeat split.
Qed.

(** X19. What Acquire took, Release gives back: if a host answers the offer
    it was made from, releasing the hosts of an Acquire sends the host
    manager one request that holds exactly the host offers it had handed
    out, in their order; releasing the empty answer of a failed Acquire
    calls nobody. *)
Theorem Acquire_then_Release fetchTasksFlag taskType filter now s :
  (forall hostOffer tasks t, GetOffer (NewHost hostOffer tasks t) = hostOffer) ->
  let '((offers, reason), s') :=
    Acquire fetchTasksFlag taskType filter now s in
  Release offers s'
  = match offers, AcquireHostOffers (rpcs s) filter with
    | _ :: _, inr resp => called (RpcReleaseHostOffers (GetHostOffers resp)) s'
    | _, _ => s'
    end.
Proof.
  intros Hoffer.
  assert (Hconv : forall hostOffers tasks,
            GetOffer <$> convertOffers hostOffers tasks now = hostOffers).
  { intros hostOffers tasks. unfold convertOffers.
    rewrite <- list_fmap_compose.
    induction hostOffers as [|o os IH]; [reflexivity|].
    cbn [fmap list_fmap compose]. rewrite Hoffer. f_equal. exact IH. }
  unfold Acquire, fetchOffers, fetchTasks.
  destruct (AcquireHostOffers (rpcs s) filter) as [err|resp] eqn:Hresp;
    [reflexivity|].
  destruct (GetError resp) as [respErr|] eqn:Herr; [reflexivity|].
  destruct (Marshal (GetFilterResultCounts resp)) as [err|filterRes] eqn:Hm;
    [reflexivity|].
  destruct (GetHostOffers resp) as [|o os] eqn:Hoffers; [reflexivity|].
  cbn [length Nat.eqb Nat.ltb Nat.leb andb].
  destruct fetchTasksFlag; cbn [andb].
  - destruct (GetTasksByHosts _ _ _) as [err|m] eqn:Ht; [reflexivity|].
    unfold Release. rewrite Hconv. reflexivity.
  - unfold Release. rewrite Hconv. reflexivity.
Qed.

End Service.

(** A host manager with two hosts on offer and a resource manager that
    knows one task on the first of them. *)
Definition twoOffers : AcquireHostOffersResponse string :=
  mkAcquireResponse string None ["host-1"; "host-2"]%string
                    {[ "MISMATCH_CONSTRAINTS"%string := 3 ]}.

Definition acquireTwo (_ : list (Rpc string unit unit)) (_ : unit)
  : string + AcquireHostOffersResponse string := inr twoOffers.

Definition tasksOnFirst (_ : list (Rpc string unit unit)) (_ : unit)
    (_ : list string) : string + option (gmap string (option (list string))) :=
  inr (Some {[ "host-1"%string := Some ["task-1"%string] ]}).

Definition marshalCount (m : gmap string Z) : string + string :=
  inr (if decide (m = ∅) then "{}" else "{...}")%string.

Definition newService : service string unit unit := mkService string unit unit 0 0 [].

Definition testAcquire :=
  Acquire string id unit unit string (string * list string * Z)
          (fun hostOffer tasks t => (hostOffer, tasks, t))
          acquireTwo tasksOnFirst marshalCount true tt tt 7 newService.

Lemma Acquire_hosts_witness :
  fst (fst testAcquire)
  = [("host-1", ["task-1"], 7); ("host-2", [], 7)]%string
  /\ rpcs _ _ _ (snd testAcquire)
     = [RpcAcquireHostOffers string unit unit tt;
        RpcGetTasksByHosts string unit unit tt ["host-1"; "host-2"]%string].
Proof.
  pose proof (Acquire_hosts string id unit unit string (string * list string * Z)
                (fun hostOffer tasks t => (hostOffer, tasks, t))
                acquireTwo tasksOnFirst marshalCount true tt tt 7 newService
                ltac:(vm_compute; discriminate)) as H.
  change (Acquire string id unit unit string (string * list string * Z)
            (fun hostOffer tasks t => (hostOffer, tasks, t))
            acquireTwo tasksOnFirst marshalCount true tt tt 7 newService)
    with testAcquire in H.
  destruct testAcquire as [[offers reason] s'] eqn:E.
  destruct H as (resp & tasks & Hresp & Hoffers & Htasks & Hrpcs).
  inversion Hresp; subst resp. inversion Htasks; subst tasks.
  split; [exact Hoffers|exact Hrpcs].
Defined.

Lemma Acquire_then_Release_witness :
  Release string unit unit (string * list string * Z) (fun h => fst (fst h))
          (fst (fst testAcquire)) (snd testAcquire)
  = called string unit unit
           (RpcReleaseHostOffers string unit unit ["host-1"; "host-2"]%string)
           (snd testAcquire).
Proof.
  exact (Acquire_then_Release string id unit unit string
           (string * list string * Z)
           (fun hostOffer tasks t => (hostOffer, tasks, t))
           (fun h => fst (fst h))
           acquireTwo tasksOnFirst marshalCount true tt tt 7 newService
           (fun _ _ _ => eq_refl)).
Defined.

End Offers.

(* ===================================================================== *)
(** * hostmgr/reservation/cleaner: recycling reserved resources           *)
(* ===================================================================== *)

Module Cleaner.

(** hostsvc.OfferOperation, as the cleaner builds it. *)
Inductive OfferOperation :=
  | UNRESERVE (Label : string)
  | DESTROY (VolumeID : string).

Section WithCollaborators.

(** The mesos and storage types, the offer pool, the volume store, the
    operations factory and the scheduler client are not among the sources.
    Of a mesos.Offer the cleaner reads the hostname and the value of the id;
    an Operation is what the factory makes of the cleaner's operations for
    an offer; DELETED is the one volume state the cleaner names. *)
Variable Offer : Type.
Variable GetHostname : Offer -> string.
Variable GetIdValue : Offer -> string.
Variable Operation : Type.
Variable Err : Type.
Context {VolumeState : Type} `{EqDecision VolumeState}.
Variable VolumeState_DELETED : VolumeState.

(** sched.Call of type ACCEPT with its Accept part. *)
Record Call := mkCall {
  FrameworkId : string;
  OfferIds : list string;
  Operations : list Operation
}.

(** What the cleaner does to the world, in the order it does it. *)
Inductive Event :=
  | RemoveReservedOffer (hostname offerID : string)
  | GetPersistentVolume (volumeID : string)
  | SchedulerCall (msid : string) (msg : Call).

(** reservation.GetLabeledReservedResources on one offer: for each
    reservation label the volumes reserved under it, in the order in which
    the loop of cleanOffer meets the labels of the map. *)
Variable GetLabeledReservedResources : Offer -> list (string * list string).

(** The answers of the collaborators may depend on everything the cleaner
    did before.  The volume store answers an error or the goal state of the
    volume; the factory an error or the mesos operations. *)
Variable volumeGoalState : list Event -> string -> Err + VolumeState.
Variable GetOfferOperations :
  list OfferOperation -> Offer -> Err + list Operation.
Variable GetFrameworkID : list Event -> string.
Variable GetMesosStreamID : list Event -> string.
Variable schedulerCall : list Event -> string -> Call -> option Err.

Definition callMesosForOfferOperations (offer : Offer)
    (hostOperations : list OfferOperation) (tr : list Event)
  : option Err * list Event :=
  match GetOfferOperations hostOperations offer with
  | inl err => (Some err, tr)
  | inr offerOperations =>
      let msg := mkCall (GetFrameworkID tr) [GetIdValue offer] offerOperations in
      let msid := GetMesosStreamID tr in
      (schedulerCall tr msid msg, tr ++ [SchedulerCall msid msg])
  end.

Definition cleanReservedResources (offer : Offer) (reservationLabel : string)
    (tr : list Event) : option Err * list Event :=
  let tr := tr ++ [RemoveReservedOffer (GetHostname offer) (GetIdValue offer)] in
  callMesosForOfferOperations offer [UNRESERVE reservationLabel] tr.

Definition cleanVolume (offer : Offer) (volumeID reservationLabel : string)
    (tr : list Event) : option Err * list Event :=
  let tr := tr ++ [RemoveReservedOffer (GetHostname offer) (GetIdValue offer)] in
  callMesosForOfferOperations offer
    [DESTROY volumeID; UNRESERVE reservationLabel] tr.

Definition needCleanVolume (volumeID : string) (offer : Offer)
    (tr : list Event) : bool * list Event :=
  let tr' := tr ++ [GetPersistentVolume volumeID] in
  match volumeGoalState tr volumeID with
  | inl err => (false, tr')
  | inr goalState =>
      if decide (goalState = VolumeState_DELETED) then (true, tr')
      else (false, tr')
  end.

(** The loop of cleanOffer over the labelled reservations of the offer. *)
Fixpoint cleanLabels (offer : Offer) (reserved : list (string * list string))
    (tr : list Event) : option Err * list Event :=
  match reserved with
  | [] => (None, tr)
  | (labels, volumes) :: rest =>
      match volumes with
      | [] => cleanReservedResources offer labels tr
      | volumeID :: _ =>
          let '(need, tr) := needCleanVolume volumeID offer tr in
          if need then cleanVolume offer volumeID labels tr
          else cleanLabels offer rest tr
      end
  end.

Definition cleanOffer (offer : Offer) (tr : list Event)
  : option Err * list Event :=
  cleanLabels offer (GetLabeledReservedResources offer) tr.

(** cleanUnusedVolumes over what offerPool.GetReservedOffers answered: for
    each hostname the offers of its map, in the order the loops meet them.
    An error of cleanOffer is logged and the loop goes on. *)
Definition cleanUnusedVolumes (reservedOffers : list (string * list Offer))
    (tr : list Event) : list Event :=
  foldl (fun tr hostOffers =>
           foldl (fun tr offer => snd (cleanOffer offer tr)) tr (snd hostOffers))
        tr reservedOffers.

Definition Run (reservedOffers : list (string * list Offer))
    (tr : list Event) : list Event :=
  cleanUnusedVolumes reservedOffers tr.

(** ** What one round does *)

Definition isRead (e : Event) : Prop := exists volumeID, e = GetPersistentVolume volumeID.

Definition isRemove (e : Event) : bool :=
  match e with RemoveReservedOffer _ _ => true | _ => false end.

Definition isCall (e : Event) : bool :=
  match e with SchedulerCall _ _ => true | _ => false end.

Definition removals (tr : list Event) : nat := length (List.filter isRemove tr).

Definition calls (tr : list Event) : nat := length (List.filter isCall tr).

(** Why the cleaner asks for [hostOperations] on an offer, [pre] being what
    it had done by then: the offer carries a label with no volume, which is
    unreserved; or it carries a label whose first volume the volume store
    has just answered to have the goal state DELETED, which is destroyed and
    then unreserved. *)
Definition justified (reserved : list (string * list string))
    (pre : list Event) (hostOperations : list OfferOperation) : Prop :=
  (exists label,
     hostOperations = [UNRESERVE label] /\ (label, []) ∈ reserved)
  \/ (exists label volumeID volumes before,
        hostOperations = [DESTROY volumeID; UNRESERVE label]
        /\ (label, volumeID :: volumes) ∈ reserved
        /\ pre = before ++ [GetPersistentVolume volumeID]
        /\ volumeGoalState before volumeID = inr VolumeState_DELETED).

(** What cleaning one offer amounts to: some reads of the volume store, and
    then either nothing, or the removal of the offer from the pool followed,
    unless the factory fails, by one call to mesos. *)
Definition cleaned (offer : Offer) (reserved : list (string * list string))
    (tr : list Event) (err : option Err) (tr' : list Event) : Prop :=
  exists reads pre,
    Forall isRead reads
    /\ pre = tr ++ reads
    /\ ((err = None /\ tr' = pre)
        \/ exists hostOperations,
             let removed :=
               pre ++ [RemoveReservedOffer (GetHostname offer) (GetIdValue offer)] in
             justified reserved pre hostOperations
             /\ match GetOfferOperations hostOperations offer with
                | inl e => err = Some e /\ tr' = removed
                | inr offerOperations =>
                    let msg := mkCall (GetFrameworkID removed) [GetIdValue offer]
                                      offerOperations in
                    let msid := GetMesosStreamID removed in
                    err = schedulerCall removed msid msg
                    /\ tr' = removed ++ [SchedulerCall msid msg]
                end).

Lemma callMesosForOfferOperations_cleaned offer reserved reads pre tr hostOps :
  Forall isRead reads -> pre = tr ++ reads ->
  justified reserved pre hostOps ->
  let removed :=
    pre ++ [RemoveReservedOffer (GetHostname offer) (GetIdValue offer)] in
  let '(err, tr') := callMesosForOfferOperations offer hostOps removed in
  cleaned offer reserved tr err tr'.
Proof.
  intros Hreads Hpre Hj removed. unfold callMesosForOfferOperations.
  destruct (GetOfferOperations hostOps offer) as [e|ops] eqn:Hf.
  - exists reads, pre. split; [exact Hreads|]. split; [exact Hpre|].
    right. exists hostOps. cbv zeta. split; [exact Hj|]. rewrite Hf.
    split; reflexivity.
  - exists reads, pre. split; [exact Hreads|]. split; [exact Hpre|].
    right. exists hostOps. cbv zeta. split; [exact Hj|]. rewrite Hf.
    split; reflexivity.
Qed.

Lemma justified_weaken x reserved pre hostOps :
  justified reserved pre hostOps -> justified (x :: reserved) pre hostOps.
Proof.
  intros [(l & E & Hin)|(l & v & vs & b & E & Hin & Hp & Hg)].
  - left. exists l. split; [exact E|]. apply elem_of_cons. right. exact Hin.
  - right. exists l, v, vs, b. repeat split; try assumption.
    apply elem_of_cons. right. exact Hin.
Qed.

Lemma cleanLabels_cleaned offer reserved : forall tr,
  let '(err, tr') := cleanLabels offer reserved tr in
  cleaned offer reserved tr err tr'.
Proof.
  induction reserved as [|[label volumes] rest IH]; intros tr.
  - cbn [cleanLabels]. exists [], tr. split; [constructor|].
    split; [rewrite app_nil_r; reflexivity|]. left. split; reflexivity.
  - cbn [cleanLabels]. destruct volumes as [|volumeID volumes].
    + unfold cleanReservedResources.
      apply (callMesosForOfferOperations_cleaned offer _ [] tr tr);
        [constructor|rewrite app_nil_r; reflexivity|].
      left. exists label. split; [reflexivity|]. apply elem_of_cons. left.
      reflexivity.
    + unfold needCleanVolume.
      assert (Hread : Forall isRead [GetPersistentVolume volumeID]).
      { constructor; [exists volumeID; reflexivity|constructor]. }
      assert (Hskip :
        let '(err, tr') :=
          cleanLabels offer rest (tr ++ [GetPersistentVolume volumeID]) in
        cleaned offer ((label, volumeID :: volumes) :: rest) tr err tr').
      { specialize (IH (tr ++ [GetPersistentVolume volumeID])).
        destruct (cleanLabels offer rest _) as [err tr'].
        destruct IH as (reads & pre & Hreads & Hpre & Hcase).
        exists (GetPersistentVolume volumeID :: reads), pre.
        split; [constructor; [exists volumeID; reflexivity|exact Hreads]|].
        split; [rewrite Hpre, <- app_assoc; reflexivity|].
        destruct Hcase as [Hnone|(hostOps & Hj & Hrest)]; [left; exact Hnone|].
        right. exists hostOps. split; [|exact Hrest].
        apply justified_weaken. exact Hj. }
      destruct (volumeGoalState tr volumeID) as [e|goalState] eqn:Hg;
        [exact Hskip|].
      destruct (decide (goalState = VolumeState_DELETED)) as [Hd|Hd];
        [|exact Hskip].
      unfold cleanVolume.
      apply (callMesosForOfferOperations_cleaned offer _
               [GetPersistentVolume volumeID]
               (tr ++ [GetPersistentVolume volumeID]) tr);
        [exact Hread|reflexivity|].
      right. exists label, volumeID, volumes, tr. subst goalState.
      repeat split; try assumption. apply elem_of_cons. left. reflexivity.
Qed.

(** X20. Cleaning an offer accepts it at most once, and destroys a volume
    only if the volume store has just answered that its goal state is
    DELETED.  cleanOffer reads the volume store some number of times and
    then either does nothing more and returns nil, or removes the offer from
    the pool and, unless the operations factory fails, makes one call to
    mesos for this offer, returning the factory's error or what the call
    answered; the offer stays removed when either fails.  The operations
    are an UNRESERVE for a label that has no volume, or a DESTROY of the
    first volume of a label followed by an UNRESERVE of the label, the
    latter only when the read of this volume, the last thing done before,
    answered the goal state DELETED and no error. *)
Theorem cleanOffer_accepts_once (offer : Offer) (tr : list Event) :
  let '(err, tr') := cleanOffer offer tr in
  cleaned offer (GetLabeledReservedResources offer) tr err tr'.
Proof. apply cleanLabels_cleaned. Qed.

Lemma removals_app l k : removals (l ++ k) = (removals l + removals k)%nat.
Proof. unfold removals. rewrite List.filter_app, length_app. reflexivity. Qed.

Lemma calls_app l k : calls (l ++ k) = (calls l + calls k)%nat.
Proof. unfold calls. rewrite List.filter_app, length_app. reflexivity. Qed.

Lemma reads_count reads :
  Forall isRead reads -> removals reads = 0%nat /\ calls reads = 0%nat.
Proof.
  induction 1 as [|e reads [v ->] _ [IH1 IH2]]; [split; reflexivity|].
  split; [exact IH1|exact IH2].
Qed.

Lemma cleanOffer_counts offer tr :
  exists added,
    snd (cleanOffer offer tr) = tr ++ added
    /\ (removals added <= 1)%nat
    /\ (calls added <= removals added)%nat.
Proof.
  pose proof (cleanLabels_cleaned offer (GetLabeledReservedResources offer) tr)
    as Hc.
  unfold cleanOffer.
  destruct (cleanLabels offer (GetLabeledReservedResources offer) tr)
    as [err tr']. cbn [snd].
  destruct Hc as (reads & pre & Hreads & Hpre & Hcase).
  destruct (reads_count reads Hreads) as [Hr Hk]. subst pre.
  destruct Hcase as [[_ ->]|(hostOps & _ & Hrest)].
  - exists reads. split; [reflexivity|]. lia.
  - cbv zeta in Hrest.
    destruct (GetOfferOperations hostOps offer) as [e|ops].
    + destruct Hrest as [_ ->].
      exists (reads ++ [RemoveReservedOffer (GetHostname offer) (GetIdValue offer)]).
      split; [rewrite app_assoc; reflexivity|].
      rewrite removals_app, calls_app, Hr, Hk. cbn. lia.
    + destruct Hrest as [_ ->].
      eexists (reads ++ [RemoveReservedOffer (GetHostname offer) (GetIdValue offer);
                         SchedulerCall _ _]).
      split.
      * rewrite <- !app_assoc. reflexivity.
      * rewrite removals_app, calls_app, Hr, Hk. cbn. lia.
Qed.

Lemma cleanOffers_counts offers : forall tr,
  exists added,
    foldl (fun tr offer => snd (cleanOffer offer tr)) tr offers = tr ++ added
    /\ (removals added <= length offers)%nat
    /\ (calls added <= removals added)%nat.
Proof.
  induction offers as [|offer offers IH]; intros tr.
  - exists []. cbn. rewrite app_nil_r. repeat split; lia.
  - cbn [foldl]. destruct (cleanOffer_counts offer tr) as (a1 & E1 & Hr1 & Hc1).
    rewrite E1. destruct (IH (tr ++ a1)) as (a2 & E2 & Hr2 & Hc2).
    rewrite E2. exists (a1 ++ a2). split; [rewrite app_assoc; reflexivity|].
    rewrite removals_app, calls_app. cbn [length]. lia.
Qed.

(** The offers of a snapshot of the pool. *)
Definition offersOf (reservedOffers : list (string * list Offer)) : list Offer :=
  concat (snd <$> reservedOffers).

(** X21. A round of the cleaner removes at most as many offers from the
    pool as the pool's snapshot held, and calls mesos at most once for each
    offer it removed: what Run does is added at the end of what was done
    before, the removals among it are no more than the reserved offers, and
    the calls to mesos no more than the removals, whichever of the reads,
    factory runs and calls fail on the way. *)
Theorem Run_bounded (reservedOffers : list (string * list Offer))
    (tr : list Event) :
  exists added,
    Run reservedOffers tr = tr ++ added
    /\ (removals added <= length (offersOf reservedOffers))%nat
    /\ (calls added <= removals added)%nat.
Proof.
  unfold Run, cleanUnusedVolumes, offersOf. revert tr.
  induction reservedOffers as [|[hostname offers] rest IH]; intros tr.
  - exists []. cbn. rewrite app_nil_r. repeat split; lia.
  - cbn [foldl snd fmap list_fmap concat].
    destruct (cleanOffers_counts offers tr) as (a1 & E1 & Hr1 & Hc1).
    rewrite E1. destruct (IH (tr ++ a1)) as (a2 & E2 & Hr2 & Hc2).
    rewrite E2. exists (a1 ++ a2). split; [rewrite app_assoc; reflexivity|].
    rewrite removals_app, calls_app, length_app. lia.
Qed.

End WithCollaborators.

End Cleaner.

(* ===================================================================== *)
(** * package taskconfig: merging task configurations                     *)
(* ===================================================================== *)

Module TaskConfig.

(** What reflect.Value.Kind tells Merge about a field: Bool, String, a kind
    on which IsNil is defined (Ptr, Slice, Map, Interface, Chan, Func), or
    any other kind, on which IsNil panics.  The fields of the generated
    struct are exported, so that Set does not panic on them. *)
Inductive Kind := KBool | KString | KNilable | KOther.

#[global] Instance Kind_eq_dec : EqDecision Kind.
Proof. solve_decision. Defined.

(** A result, or the panic of the reflect package. *)
Inductive Outcome (A : Type) :=
  | Returns (a : A)
  | Panics.
Arguments Returns {A}.
Arguments Panics {A}.


Section Merge.

(** task.TaskConfig is generated code and not among the sources; Merge
    goes through its fields by reflection and looks at their kinds only.
    A configuration is embedded as the list of its fields in the order of
    the struct, over any type [Ref] of what a nilable field holds when it
    is not nil and any type [Val] of the values of the other kinds. *)
Variable Ref : Type.
Variable Val : Type.

Inductive Field :=
  | FBool (b : bool)
  | FString (s : string)
  | FNilable (v : option Ref)
  | FOther (v : Val).

Abbreviation TaskConfig := (list Field).

Definition kindOf (f : Field) : Kind :=
  match f with
  | FBool _ => KBool
  | FString _ => KString
  | FNilable _ => KNilable
  | FOther _ => KOther
  end.

(** The type of a struct value: the kinds of its fields. *)
Definition typeOf (c : TaskConfig) : list Kind := kindOf <$> c.

(** The body of the loop for one field: what mergedVal.Field(i) is set to,
    or [None] when field.IsNil() panics. *)
Definition mergeField (baseField overrideField : Field) : option Field :=
  match overrideField with
  | FBool _ => Some overrideField
  | FString EmptyString => Some baseField
  | FString _ => Some overrideField
  | FNilable None => Some baseField
  | FNilable (Some _) => Some overrideField
  | FOther _ => None
  end.

(** The loop over the fields of the base; overrideVal.Field(i) panics when
    the override has no field i. *)
Fixpoint mergeFields (base override : TaskConfig) : Outcome TaskConfig :=
  match base, override with
  | [], _ => Returns []
  | _ :: _, [] => Panics
  | baseField :: base, overrideField :: override =>
      match mergeField baseField overrideField with
      | None => Panics
      | Some merged =>
          match mergeFields base override with
          | Returns rest => Returns (merged :: rest)
          | Panics => Panics
          end
      end
  end.

(** Merge; [None] is a nil pointer. *)
Definition Merge (base override : option TaskConfig)
  : Outcome (option TaskConfig) :=
  match override with
  | None => Returns base
  | Some o =>
      match base with
      | None => Returns override
      | Some b =>
          match mergeFields b o with
          | Returns merged => Returns (Some merged)
          | Panics => Panics
          end
      end
  end.

(** A pointer to a value of the struct type [ks], or nil. *)
Definition hasType (ks : list Kind) (c : option TaskConfig) : Prop :=
  match c with
  | Some c => typeOf c = ks
  | None => True
  end.

(** The zero value of a field of a kind that Merge handles. *)
Definition zeroField (k : Kind) (f : Field) : Field :=
  match k with
  | KBool => FBool false
  | KString => FString EmptyString
  | KNilable => FNilable None
  | KOther => f
  end.

(** The configuration whose fields are all zero, after the shape of [c]. *)
Definition zeroLike (c : TaskConfig) : TaskConfig :=
  (fun f => zeroField (kindOf f) f) <$> c.

(** [c] with every bool field false. *)
Definition clearBools (c : TaskConfig) : TaskConfig :=
  (fun f => match f with FBool _ => FBool false | _ => f end) <$> c.

Lemma mergeField_kind b o m :
  kindOf b = kindOf o -> mergeField b o = Some m -> kindOf m = kindOf o.
Proof.
  intros Hk Hm. destruct o as [x|[|a s]|[r|]|v]; cbn in Hm;
    inversion Hm; subst; try reflexivity; exact Hk.
Qed.

Lemma mergeField_None b o : mergeField b o = None <-> kindOf o = KOther.
Proof.
  destruct o as [x|[|a s]|[r|]|v]; cbn; split; intros E;
    try discriminate E; reflexivity.
Qed.

Lemma mergeFields_spec : forall b o,
  typeOf b = typeOf o ->
  match mergeFields b o with
  | Returns m => typeOf m = typeOf o /\ KOther ∉ typeOf o
  | Panics => KOther ∈ typeOf o
  end.
Proof.
  induction b as [|bf b IH]; intros [|f o] Ht; try discriminate Ht.
  - cbn. split; [reflexivity|]. apply not_elem_of_nil.
  - cbn in Ht. injection Ht as Hk Ht. cbn [mergeFields].
    destruct (mergeField bf f) as [m|] eqn:Hm.
    + specialize (IH o Ht). destruct (mergeFields b o) as [rest|].
      * destruct IH as [IH1 IH2]. cbn. split.
        -- f_equal; [|exact IH1]. eapply mergeField_kind; eassumption.
        -- intros Hin. apply elem_of_cons in Hin as [Hin|Hin].
           ++ symmetry in Hin. apply (proj2 (mergeField_None bf f)) in Hin.
              congruence.
           ++ contradiction.
      * cbn. apply elem_of_cons. right. exact IH.
    + cbn. apply elem_of_cons. left. symmetry.
      apply (proj1 (mergeField_None bf f)). exact Hm.
Qed.

(** X22. Merge of two configurations panics exactly when the struct has a
    field that is neither a bool, a string nor of a nilable kind; otherwise
    it returns a configuration of the same struct type.  With a nil
    argument it returns the other one and looks at no field. *)
Theorem Merge_panics_iff (ks : list Kind) (base override : TaskConfig) :
  typeOf base = ks -> typeOf override = ks ->
  match Merge (Some base) (Some override) with
  | Returns merged => hasType ks merged /\ is_Some merged /\ KOther ∉ ks
  | Panics => KOther ∈ ks
  end.
Proof.
  intros Hb Ho. unfold Merge.
  pose proof (mergeFields_spec base override ltac:(congruence)) as Hs.
  destruct (mergeFields base override) as [m|].
  - destruct Hs as [H1 H2]. rewrite Ho in *. cbn [hasType].
    split; [exact H1|]. split; [eexists; reflexivity|exact H2].
  - rewrite Ho in Hs. exact Hs.
Qed.





Lemma mergeFields_self c :
  KOther ∉ typeOf c -> mergeFields c c = Returns c.
Proof.
  induction c as [|f c IH]; intros Hk; [reflexivity|].
  cbn in Hk. apply not_elem_of_cons in Hk as [Hf Hk].
  cbn [mergeFields]. rewrite (IH Hk).
  destruct f as [x|[|ch s]|[r|]|v]; cbn in *; try reflexivity. congruence.
Qed.

Lemma mergeFields_zero_base c :
  KOther ∉ typeOf c -> mergeFields (zeroLike c) c = Returns c.
Proof.
  induction c as [|f c IH]; intros Hk; [reflexivity|].
  cbn in Hk. apply not_elem_of_cons in Hk as [Hf Hk].
  cbn [zeroLike fmap list_fmap mergeFields]. fold (zeroLike c).
  rewrite (IH Hk).
  destruct f as [x|[|ch s]|[r|]|v]; cbn in *; try reflexivity. congruence.
Qed.

Lemma mergeFields_zero_override c :
  KOther ∉ typeOf c -> mergeFields c (zeroLike c) = Returns (clearBools c).
Proof.
  induction c as [|f c IH]; intros Hk; [reflexivity|].
  cbn in Hk. apply not_elem_of_cons in Hk as [Hf Hk].
  cbn [zeroLike clearBools fmap list_fmap mergeFields].
  fold (zeroLike c). fold (clearBools c). rewrite (IH Hk).
  destruct f as [x|[|ch s]|[r|]|v]; cbn in *; try reflexivity. congruence.
Qed.

(** X24. An override never inherits a bool.  On a struct whose fields are
    bools, strings and nilable kinds, a configuration merged with itself is
    itself, and the configuration of zero values is neutral as a base, but
    not as an override: merging [c] with the zero configuration as override
    gives [c] with every bool field false, since a bool field is always
    taken from the override. *)
Theorem Merge_zero_configuration (c : TaskConfig) :
  KOther ∉ typeOf c ->
  Merge (Some c) (Some c) = Returns (Some c)
  /\ Merge (Some (zeroLike c)) (Some c) = Returns (Some c)
  /\ Merge (Some c) (Some (zeroLike c)) = Returns (Some (clearBools c)).
Proof.
  intros Hk. unfold Merge.
  rewrite (mergeFields_self c Hk), (mergeFields_zero_base c Hk),
    (mergeFields_zero_override c Hk).
  repeat split.
Qed.

End Merge.

(** A struct with a name, a container and a controller flag. *)
Definition baseConfig : list (Field string Z) :=
  [FString string Z "base"; FNilable string Z (Some "image-1"%string);
   FBool string Z true].

Definition overrideConfig : list (Field string Z) :=
  [FString string Z EmptyString; FNilable string Z (Some "image-2"%string);
   FBool string Z false].

Lemma Merge_panics_iff_witness :
  match Merge string Z (Some baseConfig) (Some overrideConfig) with
  | Returns merged =>
      hasType string Z [KString; KNilable; KBool] merged
      /\ is_Some merged /\ KOther ∉ [KString; KNilable; KBool]
  | Panics => KOther ∈ [KString; KNilable; KBool]
  end.
Proof.
  exact (Merge_panics_iff string Z [KString; KNilable; KBool]
           baseConfig overrideConfig eq_refl eq_refl).
Defined.

(** The merge itself: the empty name falls back to the base, the container
    and the flag are the override's. *)
Example Merge_base_override :
  Merge string Z (Some baseConfig) (Some overrideConfig)
  = Returns (Some [FString string Z "base";
                   FNilable string Z (Some "image-2"%string);
                   FBool string Z false]).
Proof. reflexivity. Qed.


Lemma Merge_zero_configuration_witness :
  Merge string Z (Some baseConfig) (Some baseConfig) = Returns (Some baseConfig)
  /\ Merge string Z (Some (zeroLike string Z baseConfig)) (Some baseConfig)
     = Returns (Some baseConfig)
  /\ Merge string Z (Some baseConfig) (Some (zeroLike string Z baseConfig))
     = Returns (Some (clearBools string Z baseConfig)).
Proof.
  apply (Merge_zero_configuration string Z baseConfig).
  vm_compute. intros Hin.
  repeat (apply elem_of_cons in Hin as [Hin|Hin]; [discriminate Hin|]).
  apply elem_of_nil in Hin. exact Hin.
Defined.

End TaskConfig.
